(** * Eremos: signal correlation and analytics

    A shallow embedding of the class [AgentCoordinator] (the coordinator
    module, in the sources under [utils/signal.ts]) and of the class
    [SignalAnalytics] (the analytics module), together with the [Signal]
    type of [types/signal.ts], followed by the properties of the two
    classes.

    Conventions of the embedding.
    - JavaScript numbers that hold confidences, averages and rates are exact
      rationals ([Q]): sums, products and quotients are not rounded as
      IEEE 754 doubles are, so a value computed here can differ from the
      program's in the last binary digit, and a comparison of two computed
      values that close can come out differently.  What is stated below
      about computed averages and rates is stated of exact arithmetic.
      Numbers that hold epoch milliseconds, windows, cooldowns and
      capacities are [Z].
    - [Signal.timestamp] is an ISO string in the source and every use of it
      goes through [new Date(signal.timestamp).getTime()]; the field is kept
      as that parsed value, in epoch milliseconds.
    - [Date.now()] and [new Date()] are the argument [now] of each operation;
      one synchronous call observes one clock reading.
    - Objects mutated in place ([this.signalBuffer], [this.lastAlerts], ...)
      are fields of a state record that each method takes and returns.
    - An object literal used as a table ([this.lastAlerts], the tables of
      [getMetrics]) is the finite map of its own properties, read and
      written through [getProperty] and [setProperty], which account for
      the members it inherits from [Object.prototype].
    - [console.log] output and the calls of a rule's [action] callback are
      collected in a trace of [Event]s. *)

From Stdlib Require Import QArith Qminmax Lqa.
From stdpp Require Import gmap strings list.

Close Scope Q_scope.
Open Scope Z_scope.

(** ** types/signal.ts *)

(** [metadata?: Record<string, any>] is opaque to both classes except for
    three keys, kept here at the type each is read at: [pattern] (a label),
    [dormancyDays] and [deploysPerMinute] (numbers). *)
Module Metadata.
Record t := mk {
  pattern : option string;
  dormancyDays : option Q;
  deploysPerMinute : option Q
}.
End Metadata.

Module Signal.
Record t := mk {
  type : string;
  hash : string;
  timestamp : Z;
  source : string;
  agent : option string;
  id : option string;
  glyph : option string;
  confidence : option Q;
  metadata : option Metadata.t
}.
End Signal.

(** [Partial<Signal> & { agent: string; type: string; confidence: number }],
    the argument of [registerSignal]. *)
Module PartialSignal.
Record t := mk {
  type : string;
  agent : string;
  confidence : Q;
  hash : option string;
  timestamp : option Z;
  source : option string;
  id : option string;
  glyph : option string;
  metadata : option Metadata.t
}.
End PartialSignal.

(** ** utils/coordinator.ts *)

Module CompositeSignal.
Record t := mk {
  type : string;
  confidence : Q;
  contributingAgents : list string;
  pattern : string;
  timestamp : Z;
  metadata_ruleId : string;
  metadata_triggerSignals : list (string * string)
}.
End CompositeSignal.

Module CorrelationRule.
Record t := mk {
  id : string;
  name : option string;
  requiredSignals : list string;
  timeWindow : Z;
  minConfidence : Q;
  outputPattern : string;
  action : option (list Signal.t → unit)
}.
End CorrelationRule.

(** What a call leaves behind besides its result: the composite printed by
    [emitCompositeSignal] and the invocation of a rule's [action]. *)
Inductive Event :=
  | Emitted (composite : CompositeSignal.t)
  | ActionCalled (ruleId : string) (signals : list Signal.t).

Record AgentCoordinator := mkCoordinator {
  signalBuffer : list Signal.t;
  bufferSize : Z;
  correlationRules : list CorrelationRule.t
}.

Definition defaultTimeWindow : Z := 60000.

(** [x || d] on numbers: [0] is falsy. *)
Definition orZ (x d : Z) : Z := if x =? 0 then d else x.

(** [signal.confidence || 0]. *)
Definition confidenceOr0 (s : Signal.t) : Q :=
  match Signal.confidence s with Some q => q | None => 0%Q end.

Definition Math_min (a b : Q) : Q := if Qle_bool a b then a else b.

(** [[...new Set(xs)]]: first occurrences, in order. *)
Fixpoint uniqueFrom (seen : gset string) (xs : list string) : list string :=
  match xs with
  | [] => []
  | x :: xs' =>
      if bool_decide (x ∈ seen) then uniqueFrom seen xs'
      else x :: uniqueFrom ({[x]} ∪ seen) xs'
  end.

Definition unique (xs : list string) : list string := uniqueFrom ∅ xs.

Definition builtinRules : list CorrelationRule.t :=
  [ CorrelationRule.mk "cex_rapid_deploy" None
      ["cex_funding_detected"; "rapid_deployment"] 30000 (8 # 10)
      "coordinated_launch_pattern" None;
    CorrelationRule.mk "ghost_wallet_activation" None
      ["dormant_wallet_activated"; "high_value_transaction"] 120000 (75 # 100)
      "suspicious_reactivation" None ].

(** [new AgentCoordinator(options)]. *)
Definition newAgentCoordinator (maxBufferSize : option Z) : AgentCoordinator :=
  {| signalBuffer := [];
     bufferSize := orZ (default 0 maxBufferSize) 1000;
     correlationRules := builtinRules |}.

(** [push] followed by the single [shift] of [registerSignal],
    [processSignal] and [addSignal]. *)
Definition pushBounded (limit : Z) (buffer : list Signal.t) (s : Signal.t)
  : list Signal.t :=
  let pushed := buffer ++ [s] in
  if limit <? Z.of_nat (length pushed) then tail pushed else pushed.

Definition correlateSignals (now : Z) (c : AgentCoordinator)
    (signalTypes : list string) (timeWindow : option Z) : bool :=
  let window := orZ (default 0 timeWindow) defaultTimeWindow in
  let recentSignals :=
    filter (λ s, now - Signal.timestamp s ≤ window) (signalBuffer c) in
  let foundTypes : gset string := list_to_set (Signal.type <$> recentSignals) in
  forallb (λ ty, bool_decide (ty ∈ foundTypes)) signalTypes.

Definition emitCompositeSignal (now : Z) (type : string) (confidence : Q)
    (contributingAgents : list string) (pattern : string) (ruleId : string)
    (triggerSignals : list (string * string)) : CompositeSignal.t :=
  CompositeSignal.mk type confidence contributingAgents pattern now
    ruleId triggerSignals.

Definition getRelevantSignals (now : Z) (c : AgentCoordinator)
    (signalTypes : list string) (timeWindow : Z) : list Signal.t :=
  filter (λ s, now - Signal.timestamp s ≤ timeWindow
               ∧ Signal.type s ∈ signalTypes) (signalBuffer c).

Definition calculateAverageConfidence (signals : list Signal.t) : Q :=
  if (length signals =? 0)%nat then 0%Q
  else
    let sum := fold_left (λ acc s, (acc + confidenceOr0 s)%Q) signals 0%Q in
    (sum / inject_Z (Z.of_nat (length signals)))%Q.

(** The body of the [for (const rule of this.correlationRules)] loop of
    [checkCorrelations]: [results] and the trace are the loop's state. *)
Definition checkRule (now : Z) (c : AgentCoordinator)
    (st : list CompositeSignal.t * list Event) (rule : CorrelationRule.t)
  : list CompositeSignal.t * list Event :=
  let '(results, trace) := st in
  if correlateSignals now c (CorrelationRule.requiredSignals rule)
       (Some (CorrelationRule.timeWindow rule)) then
    let relevantSignals :=
      getRelevantSignals now c (CorrelationRule.requiredSignals rule)
        (CorrelationRule.timeWindow rule) in
    let avgConfidence := calculateAverageConfidence relevantSignals in
    if Qle_bool (CorrelationRule.minConfidence rule) avgConfidence then
      let composite :=
        emitCompositeSignal now (CorrelationRule.outputPattern rule)
          (Math_min (avgConfidence * (11 # 10)) 1)%Q
          (unique (Signal.source <$> relevantSignals))
          (CorrelationRule.id rule) (CorrelationRule.id rule)
          ((λ s, (Signal.type s, Signal.hash s)) <$> relevantSignals) in
      let trace := trace ++ [Emitted composite] in
      (results ++ [composite],
       match CorrelationRule.action rule with
       | Some _ => trace ++ [ActionCalled (CorrelationRule.id rule) relevantSignals]
       | None => trace
       end)
    else (results, trace)
  else (results, trace).

Definition checkCorrelations (now : Z) (c : AgentCoordinator)
  : option CompositeSignal.t * list Event :=
  let '(results, trace) :=
    fold_left (checkRule now c) (correlationRules c) ([], []) in
  (head results, trace).

(** The fresh values [registerSignal] draws: [generateId()],
    [generateHash()] and [new Date().toISOString()]. *)
Record Fresh := mkFresh { freshId : string; freshHash : string; freshNow : Z }.

(** The object literal of [registerSignal]: defaults first, then
    [...signal] overrides every field the caller supplied. *)
Definition fullSignal (f : Fresh) (signal : PartialSignal.t) : Signal.t :=
  {| Signal.id := Some (default (freshId f) (PartialSignal.id signal));
     Signal.hash := default (freshHash f) (PartialSignal.hash signal);
     Signal.timestamp := default (freshNow f) (PartialSignal.timestamp signal);
     Signal.glyph := Some (default "⊕" (PartialSignal.glyph signal));
     Signal.source :=
       default (PartialSignal.agent signal) (PartialSignal.source signal);
     Signal.type := PartialSignal.type signal;
     Signal.agent := Some (PartialSignal.agent signal);
     Signal.confidence := Some (PartialSignal.confidence signal);
     Signal.metadata := PartialSignal.metadata signal |}.

Definition withBuffer (c : AgentCoordinator) (buffer : list Signal.t)
  : AgentCoordinator :=
  {| signalBuffer := buffer;
     bufferSize := bufferSize c;
     correlationRules := correlationRules c |}.

Definition registerSignal (f : Fresh) (c : AgentCoordinator)
    (signal : PartialSignal.t) : AgentCoordinator * list Event :=
  let c' := withBuffer c (pushBounded (bufferSize c) (signalBuffer c)
                            (fullSignal f signal)) in
  (c', snd (checkCorrelations (freshNow f) c')).

Definition addCorrelationRule (c : AgentCoordinator) (rule : CorrelationRule.t)
  : AgentCoordinator :=
  {| signalBuffer := signalBuffer c;
     bufferSize := bufferSize c;
     correlationRules := correlationRules c ++ [rule] |}.

Definition processSignal (now : Z) (c : AgentCoordinator) (signal : Signal.t)
  : AgentCoordinator * option CompositeSignal.t * list Event :=
  let c' := withBuffer c (pushBounded (bufferSize c) (signalBuffer c) signal) in
  let '(result, trace) := checkCorrelations now c' in
  (c', result, trace).

(** ** Object literals used as tables

    [this.lastAlerts] and the tables of [getMetrics] start as [{}].  Reading
    [table[k]] for a key the table does not own falls through to
    [Object.prototype]: for one of the names below the read yields that
    member (a function, or the prototype itself for [__proto__]), which is
    truthy and not a number; for any other key it yields [undefined].
    Writing a number or a string to [table['__proto__']] reaches the
    prototype setter, which ignores it; every other write creates or
    updates an own property. *)
Definition objectPrototypeKeys : list string :=
  [ "constructor"; "__defineGetter__"; "__defineSetter__"; "hasOwnProperty";
    "__lookupGetter__"; "__lookupSetter__"; "isPrototypeOf";
    "propertyIsEnumerable"; "toString"; "valueOf"; "__proto__";
    "toLocaleString" ].

Definition inherited (k : string) : bool :=
  bool_decide (k ∈ objectPrototypeKeys).

Inductive Property (V : Type) :=
  | Own (v : V)
  | Inherited
  | Absent.
Arguments Own {V} v.
Arguments Inherited {V}.
Arguments Absent {V}.

(** [table[k]]. *)
Definition getProperty {V} (table : gmap string V) (k : string) : Property V :=
  match table !! k with
  | Some v => Own v
  | None => if inherited k then Inherited else Absent
  end.

(** [table[k] = v] for a [v] that is a number or a string. *)
Definition setProperty {V} (k : string) (v : V) (table : gmap string V)
  : gmap string V :=
  if bool_decide (k = "__proto__") then table else <[k := v]> table.

(** ** utils/analytics.ts *)

Module Priority.
Inductive t := low | medium | high | critical.
End Priority.

Module AlertRule.
Record t := mk {
  id : string;
  name : string;
  condition : Signal.t → bool;
  priority : Priority.t;
  cooldown : Z;
  enabled : bool;
  description : string
}.
End AlertRule.

(** The object returned by [triggerAlert]. *)
Module TriggeredAlert.
Record t := mk {
  ruleId : string;
  ruleName : string;
  priority : Priority.t;
  signal : Signal.t;
  triggeredAt : Z
}.
End TriggeredAlert.

(** What a counting table of [getMetrics] holds under a key: a number, or
    the string that [member + 1] leaves there when the key names a member of
    [Object.prototype] (and that [string + 1] keeps a string). *)
Module Tally.
Inductive t := number (n : nat) | text.
End Tally.

Module ConfidenceDistribution.
Record t := mk { low : nat; medium : nat; high : nat }.
End ConfidenceDistribution.

Module AgentMetric.
Record t := mk { count : nat; averageConfidence : Q }.
End AgentMetric.

Module PatternStat.
Record t := mk { count : nat; totalConfidence : Q }.
End PatternStat.

Module TopPattern.
Record t := mk { pattern : string; count : nat; confidence : Q }.
End TopPattern.

Module SignalMetrics.
Record t := mk {
  totalSignals : nat;
  signalsByType : gmap string Tally.t;
  signalsByAgent : gmap string Tally.t;
  signalsBySource : gmap string Tally.t;
  averageConfidence : Q;
  signalsPerHour : Q;
  signalRate : Q;
  confidenceDistribution : ConfidenceDistribution.t;
  agentMetrics : gmap string AgentMetric.t;
  averageSignalRate : Q;
  topPatterns : list TopPattern.t;
  timeRange : Z * Z
}.
End SignalMetrics.

Record SignalAnalytics := mkAnalytics {
  signals : list Signal.t;
  alertRules : list AlertRule.t;
  lastAlerts : gmap string Z;
  maxSignals : Z
}.

Definition Qgt_bool (a b : Q) : bool := negb (Qle_bool a b).

Definition someOr0 (o : option Q) : Q := default 0%Q o.

Definition setupDefaultAlertRules : list AlertRule.t :=
  [ AlertRule.mk "high_confidence_launch" "High Confidence Launch Detection"
      (λ signal, bool_decide (Signal.type signal = "launch_detected")
                 && Qgt_bool (confidenceOr0 signal) (9 # 10))
      Priority.high 30000 true
      "Triggers when a launch is detected with >90% confidence";
    AlertRule.mk "coordinated_pattern" "Coordinated Pattern Alert"
      (λ signal, bool_decide (Signal.type signal = "coordinated_launch_pattern")
                 || bool_decide (Signal.type signal = "suspicious_reactivation"))
      Priority.critical 60000 true
      "Triggers on coordinated or suspicious wallet patterns";
    AlertRule.mk "ghost_wallet_activity" "Ghost Wallet Reactivation"
      (λ signal, bool_decide (Signal.type signal = "dormant_wallet_activated")
                 && Qgt_bool (someOr0 (Signal.metadata signal
                                        ≫= Metadata.dormancyDays)) 180)
      Priority.medium 120000 true
      "Triggers when wallets dormant for >180 days become active";
    AlertRule.mk "rapid_deployment_burst" "Rapid Deployment Burst"
      (λ signal, bool_decide (Signal.type signal = "rapid_deployment")
                 && Qgt_bool (someOr0 (Signal.metadata signal
                                        ≫= Metadata.deploysPerMinute)) 5)
      Priority.medium 180000 true
      "Triggers when >5 contracts deployed per minute from same wallet" ].

(** [new SignalAnalytics()]. *)
Definition newSignalAnalytics : SignalAnalytics :=
  {| signals := []; alertRules := setupDefaultAlertRules;
     lastAlerts := ∅; maxSignals := 10000 |}.

Definition triggerAlert (now : Z) (rule : AlertRule.t) (signal : Signal.t)
  : TriggeredAlert.t :=
  {| TriggeredAlert.ruleId := AlertRule.id rule;
     TriggeredAlert.ruleName := AlertRule.name rule;
     TriggeredAlert.priority := AlertRule.priority rule;
     TriggeredAlert.signal := signal;
     TriggeredAlert.triggeredAt := now |}.

(** [const lastAlert = this.lastAlerts[rule.id] || 0] followed by the test
    [now - lastAlert < rule.cooldown].  When the id names a member of
    [Object.prototype] and the table has no own entry for it, [lastAlert] is
    that member, [now - lastAlert] is [NaN] and the test is false. *)
Definition coolingDown (now : Z) (last : gmap string Z) (rule : AlertRule.t)
  : bool :=
  match getProperty last (AlertRule.id rule) with
  | Own lastAlert => now - orZ lastAlert 0 <? AlertRule.cooldown rule
  | Inherited => false
  | Absent => now - 0 <? AlertRule.cooldown rule
  end.

(** The callback of [this.alertRules.forEach] in [checkAlerts]; the loop's
    state is [triggeredAlerts] and [this.lastAlerts]. *)
Definition checkAlertRule (now : Z) (signal : Signal.t)
    (st : list TriggeredAlert.t * gmap string Z) (rule : AlertRule.t)
  : list TriggeredAlert.t * gmap string Z :=
  let '(triggeredAlerts, last) := st in
  if negb (AlertRule.enabled rule) then st
  else if coolingDown now last rule then st
  else if AlertRule.condition rule signal then
    (triggeredAlerts ++ [triggerAlert now rule signal],
     setProperty (AlertRule.id rule) now last)
  else st.

Definition checkAlerts (now : Z) (a : SignalAnalytics) (signal : Signal.t)
  : list TriggeredAlert.t * SignalAnalytics :=
  let '(triggeredAlerts, last) :=
    fold_left (checkAlertRule now signal) (alertRules a) ([], lastAlerts a) in
  (triggeredAlerts,
   {| signals := signals a; alertRules := alertRules a;
      lastAlerts := last; maxSignals := maxSignals a |}).

Definition addSignal (now : Z) (a : SignalAnalytics) (signal : Signal.t)
  : list TriggeredAlert.t * SignalAnalytics :=
  checkAlerts now
    {| signals := pushBounded (maxSignals a) (signals a) signal;
       alertRules := alertRules a; lastAlerts := lastAlerts a;
       maxSignals := maxSignals a |}
    signal.

Definition addAlertRule (a : SignalAnalytics) (rule : AlertRule.t)
  : SignalAnalytics :=
  {| signals := signals a; alertRules := alertRules a ++ [rule];
     lastAlerts := lastAlerts a; maxSignals := maxSignals a |}.

Definition withEnabled (rule : AlertRule.t) (b : bool) : AlertRule.t :=
  {| AlertRule.id := AlertRule.id rule; AlertRule.name := AlertRule.name rule;
     AlertRule.condition := AlertRule.condition rule;
     AlertRule.priority := AlertRule.priority rule;
     AlertRule.cooldown := AlertRule.cooldown rule;
     AlertRule.enabled := b;
     AlertRule.description := AlertRule.description rule |}.

(** [const rule = rules.find(r => r.id === ruleId); if (rule) rule.enabled = b].
    The assignment changes the rule object that [find] returns.  The list
    holds one record per slot, so the update reaches the slot of the first
    match only; this is the effect of the assignment whenever no rule
    object occupies two slots of the list, in particular whenever the ids
    of the list are pairwise distinct. *)
Fixpoint setEnabled (ruleId : string) (b : bool) (rules : list AlertRule.t)
  : list AlertRule.t :=
  match rules with
  | [] => []
  | r :: rs =>
      if bool_decide (AlertRule.id r = ruleId) then withEnabled r b :: rs
      else r :: setEnabled ruleId b rs
  end.

Definition enableAlert (a : SignalAnalytics) (ruleId : string) : SignalAnalytics :=
  {| signals := signals a; alertRules := setEnabled ruleId true (alertRules a);
     lastAlerts := lastAlerts a; maxSignals := maxSignals a |}.

Definition disableAlert (a : SignalAnalytics) (ruleId : string) : SignalAnalytics :=
  {| signals := signals a; alertRules := setEnabled ruleId false (alertRules a);
     lastAlerts := lastAlerts a; maxSignals := maxSignals a |}.

Definition removeAlertRule (a : SignalAnalytics) (ruleId : string)
  : SignalAnalytics :=
  {| signals := signals a;
     alertRules := filter (λ rule, AlertRule.id rule ≠ ruleId) (alertRules a);
     lastAlerts := delete ruleId (lastAlerts a);
     maxSignals := maxSignals a |}.

Definition reset (a : SignalAnalytics) : SignalAnalytics :=
  {| signals := []; alertRules := alertRules a;
     lastAlerts := ∅; maxSignals := maxSignals a |}.

(** [Array.prototype.slice(start)] for an integer [start]. *)
Definition sliceFrom (start : Z) (l : list Signal.t) : list Signal.t :=
  let len := Z.of_nat (length l) in
  let k := if start <? 0 then Z.max (len + start) 0 else Z.min start len in
  drop (Z.to_nat k) l.

Definition getRecentSignals (a : SignalAnalytics) (limit : Z) : list Signal.t :=
  sliceFrom (- limit) (signals a).

Definition setMaxHistorySize (a : SignalAnalytics) (size : Z) : SignalAnalytics :=
  {| signals :=
       if size <? Z.of_nat (length (signals a))
       then sliceFrom (- size) (signals a) else signals a;
     alertRules := alertRules a; lastAlerts := lastAlerts a;
     maxSignals := size |}.

(** [m[k] = (m[k] || 0) + 1].  A count is at least 1 once stored; an
    inherited member or a stored string is truthy, and adding 1 to it
    concatenates. *)
Definition bump (k : string) (m : gmap string Tally.t) : gmap string Tally.t :=
  match getProperty m k with
  | Own (Tally.number n) => setProperty k (Tally.number (S n)) m
  | Own Tally.text => setProperty k Tally.text m
  | Inherited => setProperty k Tally.text m
  | Absent => setProperty k (Tally.number 1) m
  end.

(** The own properties of a [Record<string, V>] in the order of their
    creation: [upsert] updates the entry of [k] in place or appends one. *)
Fixpoint upsert {V} (k : string) (f : option V → V) (l : list (string * V))
  : list (string * V) :=
  match l with
  | [] => [(k, f None)]
  | (k', v) :: l' =>
      if bool_decide (k' = k) then (k', f (Some v)) :: l'
      else (k', v) :: upsert k f l'
  end.

(** The own property such a record holds under [k]. *)
Fixpoint alookup {V} (k : string) (l : list (string * V)) : option V :=
  match l with
  | [] => None
  | (k', v) :: l' => if bool_decide (k' = k) then Some v else alookup k l'
  end.

(** The array index a property name denotes, if it denotes one: a decimal
    numeral without a leading zero whose value is below [2^32 - 1]. *)
Fixpoint digits (s : string) (acc : N) : option N :=
  match s with
  | EmptyString => Some acc
  | String c s' =>
      let d := Ascii.N_of_ascii c in
      if ((48 <=? d) && (d <=? 57))%N
      then digits s' (acc * 10 + (d - 48))%N else None
  end.

Definition arrayIndex (k : string) : option N :=
  match k with
  | EmptyString => None
  | String c rest =>
      if (Ascii.N_of_ascii c =? 48)%N && negb (bool_decide (rest = EmptyString))
      then None
      else match digits k 0 with
           | Some n => if (n <? 4294967295)%N then Some n else None
           | None => None
           end
  end.

Fixpoint insertByIndex {V} (x : string * V) (l : list (string * V))
  : list (string * V) :=
  match l with
  | [] => [x]
  | y :: l' =>
      if (default 0 (arrayIndex x.1) <? default 0 (arrayIndex y.1))%N
      then x :: l else y :: insertByIndex x l'
  end.

(** [Object.entries(record)]: the properties whose name is an array index
    come first, by ascending index, then the others in the order of their
    creation. *)
Definition objectEntries {V} (l : list (string * V)) : list (string * V) :=
  foldr insertByIndex [] (filter (λ e, is_Some (arrayIndex e.1)) l)
  ++ filter (λ e, ¬ is_Some (arrayIndex e.1)) l.

(** The variables [getMetrics] declares before its [forEach]. *)
Record MetricsAcc := mkAcc {
  accByType : gmap string Tally.t;
  accByAgent : gmap string Tally.t;
  accBySource : gmap string Tally.t;
  accAgentMetrics : gmap string AgentMetric.t;
  accPatterns : list (string * PatternStat.t);
  accDistribution : ConfidenceDistribution.t;
  totalConfidence : Q;
  confidenceCount : nat
}.

Definition emptyAcc : MetricsAcc :=
  mkAcc ∅ ∅ ∅ ∅ [] (ConfidenceDistribution.mk 0 0 0) 0%Q 0.

(** [signal.agent || signal.source]: the empty string is falsy. *)
Definition agentOf (s : Signal.t) : string :=
  match Signal.agent s with
  | Some a => if bool_decide (a = "") then Signal.source s else a
  | None => Signal.source s
  end.

(** [signal.metadata?.pattern || signal.type]. *)
Definition patternOf (s : Signal.t) : string :=
  match Signal.metadata s ≫= Metadata.pattern with
  | Some p => if bool_decide (p = "") then Signal.type s else p
  | None => Signal.type s
  end.

Definition bucket (d : ConfidenceDistribution.t) (confidence : Q)
  : ConfidenceDistribution.t :=
  if Qle_bool (8 # 10) confidence then
    ConfidenceDistribution.mk (ConfidenceDistribution.low d)
      (ConfidenceDistribution.medium d) (S (ConfidenceDistribution.high d))
  else if Qle_bool (7 # 10) confidence then
    ConfidenceDistribution.mk (ConfidenceDistribution.low d)
      (S (ConfidenceDistribution.medium d)) (ConfidenceDistribution.high d)
  else
    ConfidenceDistribution.mk (S (ConfidenceDistribution.low d))
      (ConfidenceDistribution.medium d) (ConfidenceDistribution.high d).

Definition natQ (n : nat) : Q := inject_Z (Z.of_nat n).

(** What [getMetrics] does to the [agentMetrics] entry of a signal's agent:
    [count++], and the running average when the signal has a confidence. *)
Definition seenAgent (signal : Signal.t) (entry : AgentMetric.t)
  : AgentMetric.t :=
  let count := S (AgentMetric.count entry) in
  match Signal.confidence signal with
  | Some c =>
      let currentTotal :=
        (AgentMetric.averageConfidence entry * (natQ count - 1))%Q in
      AgentMetric.mk count ((currentTotal + c) / natQ count)%Q
  | None => AgentMetric.mk count (AgentMetric.averageConfidence entry)
  end.

(** [if (!agentMetrics[agent]) agentMetrics[agent] = {count: 0, ...}] and
    the updates of [agentMetrics[agent]] after it.  An inherited member is
    truthy: no entry is made for such a key, and the updates land on the
    member, outside the table. *)
Definition trackAgent (signal : Signal.t) (table : gmap string AgentMetric.t)
  : gmap string AgentMetric.t :=
  let agent := agentOf signal in
  match getProperty table agent with
  | Own entry => <[agent := seenAgent signal entry]> table
  | Inherited => table
  | Absent => <[agent := seenAgent signal (AgentMetric.mk 0 0%Q)]> table
  end.

(** What [getMetrics] does to the [patterns] entry of a signal's pattern. *)
Definition seenPattern (signal : Signal.t) (o : option PatternStat.t)
  : PatternStat.t :=
  let p := default (PatternStat.mk 0 0%Q) o in
  PatternStat.mk (S (PatternStat.count p))
    (match Signal.confidence signal with
     | Some c => (PatternStat.totalConfidence p + c)%Q
     | None => PatternStat.totalConfidence p
     end).

(** [if (!patterns[pattern]) patterns[pattern] = {count: 0, ...}] and the
    updates after it, with the same treatment of inherited members. *)
Definition trackPattern (signal : Signal.t) (l : list (string * PatternStat.t))
  : list (string * PatternStat.t) :=
  let pattern := patternOf signal in
  match alookup pattern l with
  | Some _ => upsert pattern (seenPattern signal) l
  | None => if inherited pattern then l else upsert pattern (seenPattern signal) l
  end.

(** The callback of [relevantSignals.forEach] in [getMetrics]. *)
Definition metricsStep (acc : MetricsAcc) (signal : Signal.t) : MetricsAcc :=
  let agent := agentOf signal in
  {| accByType := bump (Signal.type signal) (accByType acc);
     accByAgent := bump agent (accByAgent acc);
     accBySource := bump (Signal.source signal) (accBySource acc);
     accAgentMetrics := trackAgent signal (accAgentMetrics acc);
     accPatterns := trackPattern signal (accPatterns acc);
     accDistribution :=
       match Signal.confidence signal with
       | Some c => bucket (accDistribution acc) c
       | None => accDistribution acc
       end;
     totalConfidence :=
       match Signal.confidence signal with
       | Some c => (totalConfidence acc + c)%Q
       | None => totalConfidence acc
       end;
     confidenceCount :=
       match Signal.confidence signal with
       | Some _ => S (confidenceCount acc)
       | None => confidenceCount acc
       end |}.

(** [.sort((a, b) => b.count - a.count)]: by count, descending, stable. *)
Fixpoint insertByCount (x : TopPattern.t) (l : list TopPattern.t)
  : list TopPattern.t :=
  match l with
  | [] => [x]
  | y :: l' =>
      if (TopPattern.count x <? TopPattern.count y)%nat
      then y :: insertByCount x l' else x :: l
  end.

Definition sortByCount (l : list TopPattern.t) : list TopPattern.t :=
  foldr insertByCount [] l.

Definition toTopPattern (e : string * PatternStat.t) : TopPattern.t :=
  let '(pattern, data) := e in
  TopPattern.mk pattern (PatternStat.count data)
    (if (0 <? PatternStat.count data)%nat
     then (PatternStat.totalConfidence data / natQ (PatternStat.count data))%Q
     else 0%Q).

Definition defaultMetricsWindow : Z := 24 * 60 * 60 * 1000.

Definition metricsWindow (timeWindow : option Z) : Z :=
  orZ (default 0 timeWindow) defaultMetricsWindow.

Definition hoursInWindow (windowMs : Z) : Q :=
  (inject_Z windowMs / inject_Z (1000 * 60 * 60))%Q.

Definition relevantForMetrics (now : Z) (a : SignalAnalytics) (windowMs : Z)
  : list Signal.t :=
  filter (λ signal, now - Signal.timestamp signal ≤ windowMs) (signals a).

Definition getMetrics (now : Z) (a : SignalAnalytics) (timeWindow : option Z)
  : SignalMetrics.t :=
  let windowMs := metricsWindow timeWindow in
  let relevantSignals := relevantForMetrics now a windowMs in
  let acc := fold_left metricsStep relevantSignals emptyAcc in
  let topPatterns :=
    take 10 (sortByCount (toTopPattern <$> objectEntries (accPatterns acc))) in
  let earliestSignal := default now (Signal.timestamp <$> head relevantSignals) in
  let latestSignal := default now (Signal.timestamp <$> last relevantSignals) in
  let signalsPerHour := (natQ (length relevantSignals) / hoursInWindow windowMs)%Q in
  let signalRate :=
    (natQ (length relevantSignals) / (inject_Z windowMs / 1000))%Q in
  let averageSignalRate := (signalRate * 60)%Q in
  {| SignalMetrics.totalSignals := length relevantSignals;
     SignalMetrics.signalsByType := accByType acc;
     SignalMetrics.signalsByAgent := accByAgent acc;
     SignalMetrics.signalsBySource := accBySource acc;
     SignalMetrics.averageConfidence :=
       if (0 <? confidenceCount acc)%nat
       then (totalConfidence acc / natQ (confidenceCount acc))%Q else 0%Q;
     SignalMetrics.signalsPerHour := signalsPerHour;
     SignalMetrics.signalRate := signalRate;
     SignalMetrics.confidenceDistribution := accDistribution acc;
     SignalMetrics.agentMetrics := accAgentMetrics acc;
     SignalMetrics.averageSignalRate := averageSignalRate;
     SignalMetrics.topPatterns := topPatterns;
     SignalMetrics.timeRange := (earliestSignal, latestSignal) |}.

(** ** Sequences of calls and per-rule observations *)

(** What one iteration of the loop of [checkCorrelations] contributes when
    it starts from empty [results]: the composite it pushes, if any, and
    the events it causes. *)
Definition compositeOf (now : Z) (c : AgentCoordinator) (rule : CorrelationRule.t)
  : option CompositeSignal.t :=
  head (checkRule now c ([], []) rule).1.

Definition eventsOf (now : Z) (c : AgentCoordinator) (rule : CorrelationRule.t)
  : list Event :=
  (checkRule now c ([], []) rule).2.

(** [registerSignal] called once per input, in order. *)
Fixpoint registerAll (c : AgentCoordinator) (inputs : list (Fresh * PartialSignal.t))
  : AgentCoordinator :=
  match inputs with
  | [] => c
  | (f, signal) :: rest => registerAll (registerSignal f c signal).1 rest
  end.

(** [processSignal] called once per input, in order. *)
Fixpoint processAll (c : AgentCoordinator) (inputs : list (Z * Signal.t))
  : AgentCoordinator :=
  match inputs with
  | [] => c
  | (now, signal) :: rest => processAll (processSignal now c signal).1.1 rest
  end.

(** [addSignal] called once per input, in order. *)
Fixpoint addAll (a : SignalAnalytics) (inputs : list (Z * Signal.t))
  : SignalAnalytics :=
  match inputs with
  | [] => a
  | (now, signal) :: rest => addAll (addSignal now a signal).2 rest
  end.

(** The alerts of one rule id among the alerts a call returned. *)
Definition alertsFor (ruleId : string) (alerts : list TriggeredAlert.t)
  : list TriggeredAlert.t :=
  filter (λ alert, TriggeredAlert.ruleId alert = ruleId) alerts.

(** The sum of a list of rationals. *)
Definition Qsum (l : list Q) : Q := foldr Qplus 0%Q l.

(** The signals of a list that carry a confidence, and their confidences. *)
Definition scored (signals : list Signal.t) : list Signal.t :=
  filter (λ s, is_Some (Signal.confidence s)) signals.

Definition confidences (signals : list Signal.t) : list Q :=
  omap Signal.confidence signals.

(** An alert rule is due on [signal] at [now] against the cooldown table
    [last]: enabled, not cooling down, and its condition holds. *)
Definition due (now : Z) (last : gmap string Z) (signal : Signal.t)
    (rule : AlertRule.t) : bool :=
  AlertRule.enabled rule
  && negb (coolingDown now last rule)
  && AlertRule.condition rule signal.

(** What a counting table holds under a key that [n] signals counted
    towards: nothing before the first one, then their number. *)
Definition tally (n : nat) : option Tally.t :=
  match n with
  | O => None
  | S _ => Some (Tally.number n)
  end.

(** The number of signals a confidence distribution accounts for. *)
Definition bucketTotal (d : ConfidenceDistribution.t) : nat :=
  (ConfidenceDistribution.low d + ConfidenceDistribution.medium d
   + ConfidenceDistribution.high d)%nat.

(** The [n] most recently appended elements of [l], oldest first. *)
Definition mostRecent (n : nat) (l : list Signal.t) : list Signal.t :=
  drop (length l - n) l.

(** Signals and rules for running the operations on concrete inputs. *)
Definition simpleSignal (type source : string) (timestamp : Z)
    (confidence : option Q) : Signal.t :=
  Signal.mk type "sig_test" timestamp source None None None confidence None.

Definition simplePartial (type agent : string) (confidence : Q)
  : PartialSignal.t :=
  PartialSignal.mk type agent confidence None None None None None None.

Definition simpleRule (id : string) (requiredSignals : list string)
    (timeWindow : Z) (minConfidence : Q) (action : option (list Signal.t → unit))
  : CorrelationRule.t :=
  CorrelationRule.mk id None requiredSignals timeWindow minConfidence
    (id +:+ "_pattern") action.

Definition simpleAlertRule (id : string) (cooldown : Z) (enabled : bool)
  : AlertRule.t :=
  AlertRule.mk id id (λ _, true) Priority.low cooldown enabled id.

(** ** Further operations of the two classes *)

(** [getActiveSignals(timeWindow = this.defaultTimeWindow)]: the default
    parameter replaces an absent window only, so a window of 0 stays 0. *)
Definition getActiveSignals (now : Z) (c : AgentCoordinator)
    (timeWindow : option Z) : list Signal.t :=
  let timeWindow := default defaultTimeWindow timeWindow in
  filter (λ s, now - Signal.timestamp s ≤ timeWindow) (signalBuffer c).

Module SignalStats.
Record t := mk { total : nat; unique_types : nat; agents : nat }.
End SignalStats.

Definition getSignalStats (c : AgentCoordinator) : SignalStats.t :=
  let types : gset string := list_to_set (Signal.type <$> signalBuffer c) in
  let agents : gset string := list_to_set (Signal.source <$> signalBuffer c) in
  {| SignalStats.total := length (signalBuffer c);
     SignalStats.unique_types := size types;
     SignalStats.agents := size agents |}.

Definition getActiveRules (c : AgentCoordinator) : list CorrelationRule.t :=
  correlationRules c.

Module CoordinatorStats.
Record t := mk {
  bufferedSignals : nat;
  uniqueSignalTypes : nat;
  activeAgents : nat;
  correlationRules : nat;
  bufferUtilization : Q
}.
End CoordinatorStats.

Definition getStats (c : AgentCoordinator) : CoordinatorStats.t :=
  let stats := getSignalStats c in
  {| CoordinatorStats.bufferedSignals := SignalStats.total stats;
     CoordinatorStats.uniqueSignalTypes := SignalStats.unique_types stats;
     CoordinatorStats.activeAgents := SignalStats.agents stats;
     CoordinatorStats.correlationRules := length (correlationRules c);
     CoordinatorStats.bufferUtilization :=
       (natQ (SignalStats.total stats) / inject_Z (bufferSize c) * 100)%Q |}.

Definition getActiveAlerts (a : SignalAnalytics) : list AlertRule.t :=
  filter (λ rule, AlertRule.enabled rule = true) (alertRules a).

(** [recordSignal]: [addSignal] with the alerts dropped. *)
Definition recordSignal (now : Z) (a : SignalAnalytics) (signal : Signal.t)
  : SignalAnalytics :=
  (addSignal now a signal).2.

(** One entry of [getSignalTrends].  The [hour] label of the source is the
    ISO rendering of [hourStart] cut to the hour; the entry keeps the
    instant itself. *)
Module Trend.
Record t := mk { hourStart : Z; count : nat; avgConfidence : Q }.
End Trend.




(** One entry of [getTimeSeriesData]; [start] stands for the timestamp
    rendered from it. *)
Module SeriesPoint.
Record t := mk { start : Q; value : Q }.
End SeriesPoint.



(** [Partial<AlertRule> & { id: string }], the argument of the test helper
    [createTestAlertRule]. *)
Module PartialAlertRule.
Record t := mk {
  id : string;
  name : option string;
  condition : option (Signal.t → bool);
  priority : option Priority.t;
  cooldown : option Z;
  enabled : option bool;
  description : option string
}.
End PartialAlertRule.



(** A list of timestamps in which no signal is stamped before an earlier
    one. *)
Fixpoint nondecreasing (l : list Z) : Prop :=
  match l with
  | [] => True
  | x :: l' => (∀ y, y ∈ l' → x ≤ y) ∧ nondecreasing l'
  end.

(** The signals of [signals] that an agent key, or a pattern key, selects. *)
Definition ofAgent (k : string) (signals : list Signal.t) : list Signal.t :=
  filter (λ s, agentOf s = k) signals.

Definition ofPattern (k : string) (signals : list Signal.t) : list Signal.t :=
  filter (λ s, patternOf s = k) signals.

(** Counts never increase along a list of top patterns. *)
Fixpoint descending (l : list TopPattern.t) : Prop :=
  match l with
  | [] => True
  | x :: l' =>
      (∀ y, y ∈ l' → (TopPattern.count y ≤ TopPattern.count x)%nat)
      ∧ descending l'
  end.

(** ** The window queries of the coordinator *)

Section Window.
Variables (now : Z) (c : AgentCoordinator).

Lemma getRelevantSignals_elem signalTypes timeWindow s :
  s ∈ getRelevantSignals now c signalTypes timeWindow ↔
  s ∈ signalBuffer c ∧ now - timeWindow ≤ Signal.timestamp s
  ∧ Signal.type s ∈ signalTypes.
Proof.
  unfold getRelevantSignals. rewrite list_elem_of_filter.
  split; intros; destruct_and?; split_and?; auto; lia.
Qed.

Lemma correlateSignals_true signalTypes timeWindow :
  correlateSignals now c signalTypes timeWindow = true ↔
  ∀ ty, ty ∈ signalTypes →
    ∃ s, s ∈ signalBuffer c ∧ Signal.type s = ty
         ∧ now - Signal.timestamp s
           ≤ orZ (default 0 timeWindow) defaultTimeWindow.
Proof.
  unfold correlateSignals. rewrite forallb_forall. split.
  - intros H ty Hty. apply list_elem_of_In, H in Hty.
    apply bool_decide_eq_true in Hty.
    apply elem_of_list_to_set, list_elem_of_fmap in Hty as (s & -> & Hs).
    apply list_elem_of_filter in Hs as [Hw Hs]. eauto.
  - intros H ty Hty. apply list_elem_of_In, H in Hty as (s & Hs & <- & Hw).
    apply bool_decide_eq_true, elem_of_list_to_set, list_elem_of_fmap.
    exists s. split; [done|]. by apply list_elem_of_filter.
Qed.

End Window.

Lemma getRelevantSignals_filter now c signalTypes timeWindow :
  getRelevantSignals now c signalTypes timeWindow
  = filter (λ s, now - timeWindow ≤ Signal.timestamp s
                 ∧ Signal.type s ∈ signalTypes) (signalBuffer c).
Proof.
  unfold getRelevantSignals. apply list_filter_iff. intros s. split.
  - intros [? ?]. split; [lia|done].
  - intros [? ?]. split; [lia|done].
Qed.

(** X27.  [getRelevantSignals] returns, in buffer order, exactly the
    buffered signals of the requested types whose timestamp is at least
    [now - timeWindow]: an older signal is excluded, and the query has no
    upper bound, so a signal stamped later than [now] is returned too.  The
    coverage test of [correlateSignals] reads the buffer through the same
    one-sided window, a window of 0 standing for the 60000 ms default. *)
Theorem window_query_has_lower_bound_only
    (now : Z) (c : AgentCoordinator) (signalTypes : list string) (timeWindow : Z) :
  getRelevantSignals now c signalTypes timeWindow
  = filter (λ s, now - timeWindow ≤ Signal.timestamp s
                 ∧ Signal.type s ∈ signalTypes) (signalBuffer c)
  ∧ sublist (getRelevantSignals now c signalTypes timeWindow) (signalBuffer c)
  ∧ (∀ s, Signal.timestamp s < now - timeWindow →
          s ∉ getRelevantSignals now c signalTypes timeWindow)
  ∧ (∀ s, s ∈ signalBuffer c → Signal.type s ∈ signalTypes →
          now - timeWindow ≤ Signal.timestamp s →
          s ∈ getRelevantSignals now c signalTypes timeWindow)
  ∧ (correlateSignals now c signalTypes (Some timeWindow) = true ↔
     ∀ ty, ty ∈ signalTypes →
       ∃ s, s ∈ signalBuffer c ∧ Signal.type s = ty
            ∧ now - orZ timeWindow defaultTimeWindow ≤ Signal.timestamp s).
Proof.
  split_and!.
  - apply getRelevantSignals_filter.
  - apply sublist_filter.
  - intros s Hold Hin. apply getRelevantSignals_elem in Hin. lia.
  - intros s Hs Hty Hw. apply getRelevantSignals_elem. auto.
  - rewrite correlateSignals_true. simpl.
    split; intros H ty Hty; destruct (H ty Hty) as (s & Hs & Heq & Hw);
      exists s; split_and!; auto; lia.
Qed.

Lemma window_query_has_lower_bound_only_witness :
  let old := simpleSignal "A" "x" 900 None in
  let recent := simpleSignal "A" "y" 990 None in
  let future := simpleSignal "A" "z" 2000 None in
  let c := withBuffer (newAgentCoordinator None) [old; recent; future] in
  (old ∉ getRelevantSignals 1000 c ["A"] 30)
  ∧ recent ∈ getRelevantSignals 1000 c ["A"] 30
  ∧ future ∈ getRelevantSignals 1000 c ["A"] 30.
Proof.
  intros old recent future c.
  destruct (window_query_has_lower_bound_only 1000 c ["A"] 30)
    as (_ & _ & Hout & Hin & _).
  split_and!.
  - apply Hout. vm_compute. reflexivity.
  - apply Hin; [right; left|left|vm_compute; discriminate].
  - apply Hin; [do 2 right; left|left|vm_compute; discriminate].
Defined.

(** ** The correlation loop *)

Section Correlation.
Variables (now : Z) (c : AgentCoordinator).

Lemma checkRule_split results trace rule :
  checkRule now c (results, trace) rule
  = (results ++ option_list (compositeOf now c rule),
     trace ++ eventsOf now c rule).
Proof.
  unfold compositeOf, eventsOf, checkRule.
  destruct (correlateSignals _ _ _ _); simpl; [|by rewrite !app_nil_r].
  destruct (Qle_bool _ _); simpl; [|by rewrite !app_nil_r].
  destruct (CorrelationRule.action rule); simpl; by rewrite <-?app_assoc.
Qed.

Lemma fold_checkRule rules results trace :
  fold_left (checkRule now c) rules (results, trace)
  = (results ++ omap (compositeOf now c) rules,
     trace ++ (rules ≫= eventsOf now c)).
Proof.
  revert results trace.
  induction rules as [|rule rules IH]; intros results trace;
    cbn [fold_left omap list_omap mbind list_bind].
  - by rewrite !app_nil_r.
  - rewrite checkRule_split, IH, <-!app_assoc. f_equal. f_equal.
    by destruct (compositeOf now c rule).
Qed.

Lemma checkCorrelations_spec :
  checkCorrelations now c
  = (head (omap (compositeOf now c) (correlationRules c)),
     correlationRules c ≫= eventsOf now c).
Proof. unfold checkCorrelations. by rewrite fold_checkRule. Qed.

Lemma compositeOf_unmatched rule :
  correlateSignals now c (CorrelationRule.requiredSignals rule)
    (Some (CorrelationRule.timeWindow rule)) = false →
  compositeOf now c rule = None ∧ eventsOf now c rule = [].
Proof. unfold compositeOf, eventsOf, checkRule. by intros ->. Qed.

Lemma compositeOf_some rule composite :
  compositeOf now c rule = Some composite →
  Emitted composite ∈ eventsOf now c rule
  ∧ (is_Some (CorrelationRule.action rule) →
     ActionCalled (CorrelationRule.id rule)
       (getRelevantSignals now c (CorrelationRule.requiredSignals rule)
          (CorrelationRule.timeWindow rule)) ∈ eventsOf now c rule).
Proof.
  unfold compositeOf, eventsOf, checkRule.
  destruct (correlateSignals _ _ _ _); simpl; [|done].
  destruct (Qle_bool _ _); simpl; [|done].
  intros [= <-]. split.
  - destruct (CorrelationRule.action rule); set_solver.
  - intros [f ->]. set_solver.
Qed.

Lemma compositeOf_none rule :
  compositeOf now c rule = None → eventsOf now c rule = [].
Proof.
  unfold compositeOf, eventsOf, checkRule.
  destruct (correlateSignals _ _ _ _); simpl; [|done].
  destruct (Qle_bool _ _); simpl; done.
Qed.
End Correlation.

Lemma processSignal_spec now c signal :
  let c' := withBuffer c (pushBounded (bufferSize c) (signalBuffer c) signal) in
  processSignal now c signal
  = (c', head (omap (compositeOf now c') (correlationRules c)),
     correlationRules c ≫= eventsOf now c').
Proof. intros c'. unfold processSignal. fold c'. by rewrite checkCorrelations_spec. Qed.

Lemma omap_first {A B} (f : A → option B) pre x post y :
  (∀ a, a ∈ pre → f a = None) → f x = Some y →
  head (omap f (pre ++ x :: post)) = Some y.
Proof.
  intros Hpre Hx. induction pre as [|a pre IH]; simpl.
  - by rewrite Hx.
  - rewrite (Hpre a) by left. apply IH. intros ??. apply Hpre. by right.
Qed.

Lemma omap_all_none {A B} (f : A → option B) l :
  (∀ a, a ∈ l → f a = None) → omap f l = [].
Proof.
  induction l as [|a l IH]; intros H; simpl; [done|].
  rewrite (H a) by left. apply IH. intros ??. apply H. by right.
Qed.

(** C6.  [processSignal] returns the composite of the first rule, in
    registration order, whose evaluation produces one.  Every rule that
    produces a composite has it emitted and its action, if any, called on
    the relevant signals, whether or not its composite is the one returned;
    when no rule produces a composite the call returns none. *)
Theorem first_match_is_returned (now : Z) (c : AgentCoordinator) (signal : Signal.t) :
  let c' := (processSignal now c signal).1.1 in
  let result := (processSignal now c signal).1.2 in
  let trace := (processSignal now c signal).2 in
  result = head (omap (compositeOf now c') (correlationRules c))
  ∧ (∀ pre rule post composite,
       correlationRules c = pre ++ rule :: post →
       (∀ r, r ∈ pre → compositeOf now c' r = None) →
       compositeOf now c' rule = Some composite →
       result = Some composite)
  ∧ (∀ rule composite,
       rule ∈ correlationRules c →
       compositeOf now c' rule = Some composite →
       Emitted composite ∈ trace
       ∧ (is_Some (CorrelationRule.action rule) →
          ActionCalled (CorrelationRule.id rule)
            (getRelevantSignals now c' (CorrelationRule.requiredSignals rule)
               (CorrelationRule.timeWindow rule)) ∈ trace))
  ∧ ((∀ rule, rule ∈ correlationRules c → compositeOf now c' rule = None) →
     result = None ∧ trace = []).
Proof.
  rewrite processSignal_spec. simpl. split_and!.
  - done.
  - intros pre rule post composite -> Hpre Hrule. by apply omap_first.
  - intros rule composite Hin Hsome.
    destruct (compositeOf_some _ _ _ _ Hsome) as [He Ha]. split.
    + apply list_elem_of_bind. eauto.
    + intros Hact. apply list_elem_of_bind. eauto.
  - intros Hnone. rewrite omap_all_none by done. split; [done|].
    induction (correlationRules c) as [|r rs IH]; simpl; [done|].
    rewrite (compositeOf_none _ _ r) by (apply Hnone; left). simpl.
    apply IH. intros ??. apply Hnone. by right.
Qed.

(** C7 (the code departs from it).  The scenario of the repository's test
    'should respect time windows for correlation': a rule over a window of
    1000 ms requiring [event-a] and [event-b], a signal of the first type
    stamped at the current time and one of the second type stamped 2000 ms
    later.  The window test [(now - signalTime) <= timeWindow] has no
    upper bound, so the later signal is inside the window and the two
    correlate: [processSignal] returns the rule's composite, triggered by
    both signals. *)
Theorem future_signal_correlates :
  let now := 1000000 in
  let rule := simpleRule "time-sensitive-rule" ["event-a"; "event-b"] 1000 0 None in
  let c := addCorrelationRule (newAgentCoordinator None) rule in
  let signal1 := simpleSignal "event-a" "a" now None in
  let signal2 := simpleSignal "event-b" "b" (now + 2000) None in
  let c1 := (processSignal now c signal1).1.1 in
  let out := processSignal now c1 signal2 in
  getRelevantSignals now out.1.1 ["event-a"; "event-b"] 1000 = [signal1; signal2]
  ∧ correlateSignals now out.1.1 ["event-a"; "event-b"] (Some 1000) = true
  ∧ ∃ composite,
      out.1.2 = Some composite
      ∧ CompositeSignal.pattern composite = "time-sensitive-rule"
      ∧ CompositeSignal.contributingAgents composite = ["a"; "b"]
      ∧ CompositeSignal.metadata_triggerSignals composite
        = [("event-a", "sig_test"); ("event-b", "sig_test")].
Proof.
  intros now rule c signal1 signal2 c1 out. split_and!.
  - vm_compute. reflexivity.
  - vm_compute. reflexivity.
  - destruct out.1.2 as [composite|] eqn:Hout; [|vm_compute in Hout; discriminate Hout].
    exists composite. vm_compute in Hout. injection Hout as <-.
    split_and!; reflexivity.
Qed.

(** ** Averages *)


Lemma Math_min_Qmin a b : (Math_min a b == Qmin a b)%Q.
Proof.
  unfold Math_min. destruct (Qle_bool a b) eqn:Hle.
  - apply Qle_bool_iff in Hle. symmetry. by apply Q.min_l.
  - symmetry. apply Q.min_r. apply Qlt_le_weak, Qnot_le_lt.
    intros Hab. apply Qle_bool_iff in Hab. congruence.
Qed.

(** ** Buffers that hold a single kind *)


Lemma registerAll_rules c inputs :
  correlationRules (registerAll c inputs) = correlationRules c.
Proof.
  revert c. induction inputs as [|[f p] inputs IH]; intros c; simpl; [done|].
  by rewrite IH.
Qed.




Lemma first_match_is_returned_witness :
  let first := simpleRule "first" ["A"] 30000 0 None in
  let second := simpleRule "second" ["A"] 60000 0 (Some (λ _, ())) in
  let c := addCorrelationRule (addCorrelationRule
             (withBuffer (newAgentCoordinator None) []) first) second in
  let signal := simpleSignal "A" "x" 1000 (Some (1 # 2)%Q) in
  ∃ composite other,
    (processSignal 1000 c signal).1.2 = Some composite
    ∧ CompositeSignal.pattern composite = "first"
    ∧ CompositeSignal.pattern other = "second"
    ∧ Emitted other ∈ (processSignal 1000 c signal).2
    ∧ ActionCalled "second" [signal] ∈ (processSignal 1000 c signal).2.
Proof.
  intros first second c signal.
  pose proof (first_match_is_returned 1000 c signal) as (_ & Hfirst & Hall & _).
  destruct (compositeOf 1000 (processSignal 1000 c signal).1.1 first)
    as [composite|] eqn:H1; [|vm_compute in H1; discriminate H1].
  destruct (compositeOf 1000 (processSignal 1000 c signal).1.1 second)
    as [other|] eqn:H2; [|vm_compute in H2; discriminate H2].
  exists composite, other.
  assert (Hp1 : CompositeSignal.pattern composite = "first")
    by (vm_compute in H1; injection H1 as <-; reflexivity).
  assert (Hp2 : CompositeSignal.pattern other = "second")
    by (vm_compute in H2; injection H2 as <-; reflexivity).
  split_and!; [|exact Hp1|exact Hp2| |].
  - apply (Hfirst builtinRules first [second] composite); [reflexivity| |exact H1].
    intros r Hr. repeat (apply elem_of_cons in Hr as [->|Hr]; [reflexivity|]).
    inversion Hr.
  - apply (Hall second other); [|exact H2]. do 3 right. left.
  - apply (Hall second other); [|exact H2|by eexists]. do 3 right. left.
Defined.

(** ** Bounded histories *)

Lemma pushBounded_mostRecent limit buffer s :
  0 ≤ limit → Z.of_nat (length buffer) ≤ limit →
  pushBounded limit buffer s = mostRecent (Z.to_nat limit) (buffer ++ [s]).
Proof.
  intros Hlimit Hlen. unfold pushBounded, mostRecent.
  rewrite length_app. simpl.
  destruct (Z.ltb_spec limit (Z.of_nat (length buffer + 1))).
  - replace (length buffer + 1 - Z.to_nat limit)%nat with 1%nat by lia.
    by destruct (buffer ++ [s]).
  - by replace (length buffer + 1 - Z.to_nat limit)%nat with 0%nat by lia.
Qed.

Lemma mostRecent_length n l : length (mostRecent n l) = (length l `min` n)%nat.
Proof. unfold mostRecent. rewrite length_drop. lia. Qed.

Lemma mostRecent_app n l k :
  mostRecent n (mostRecent n l ++ k) = mostRecent n (l ++ k).
Proof.
  unfold mostRecent. rewrite !length_app, length_drop.
  assert (Hsplit : l ++ k
                   = take (length l - n) l ++ (drop (length l - n) l ++ k))
    by (by rewrite app_assoc, take_drop).
  rewrite Hsplit.
  replace (length l + length k - n)%nat
    with (length l - n + (length l - (length l - n) + length k - n))%nat by lia.
  rewrite drop_app_add'; [done|]. rewrite length_take. lia.
Qed.

Lemma mostRecent_overflow n l k :
  (n ≤ length k)%nat → mostRecent n (l ++ k) = mostRecent n k.
Proof.
  intros Hn. unfold mostRecent. rewrite length_app.
  replace (length l + length k - n)%nat with (length l + (length k - n))%nat by lia.
  by rewrite drop_app_add.
Qed.

Lemma pushAll_mostRecent limit sigs buffer :
  0 ≤ limit → Z.of_nat (length buffer) ≤ limit →
  foldl (pushBounded limit) buffer sigs
  = mostRecent (Z.to_nat limit) (buffer ++ sigs).
Proof.
  intros Hlimit. revert buffer.
  induction sigs as [|s sigs IH]; intros buffer Hlen; simpl.
  - unfold mostRecent. rewrite app_nil_r.
    by replace (length buffer - Z.to_nat limit)%nat with 0%nat by lia.
  - rewrite pushBounded_mostRecent by done. rewrite IH.
    + rewrite mostRecent_app, <-app_assoc. done.
    + rewrite mostRecent_length. lia.
Qed.

Lemma registerAll_buffer c inputs :
  signalBuffer (registerAll c inputs)
  = foldl (pushBounded (bufferSize c)) (signalBuffer c)
      ((λ i, fullSignal i.1 i.2) <$> inputs)
  ∧ bufferSize (registerAll c inputs) = bufferSize c.
Proof.
  revert c. induction inputs as [|[f p] inputs IH]; intros c; [done|].
  change (registerAll c ((f, p) :: inputs))
    with (registerAll (registerSignal f c p).1 inputs).
  destruct (IH (registerSignal f c p).1) as [-> ->]. done.
Qed.

Lemma processAll_buffer c inputs :
  signalBuffer (processAll c inputs)
  = foldl (pushBounded (bufferSize c)) (signalBuffer c) (snd <$> inputs)
  ∧ bufferSize (processAll c inputs) = bufferSize c.
Proof.
  revert c. induction inputs as [|[now s] inputs IH]; intros c; [done|].
  change (processAll c ((now, s) :: inputs))
    with (processAll (processSignal now c s).1.1 inputs).
  destruct (IH (processSignal now c s).1.1) as [-> ->].
  by rewrite processSignal_spec.
Qed.

Lemma checkAlerts_frame now a signal :
  signals (checkAlerts now a signal).2 = signals a
  ∧ alertRules (checkAlerts now a signal).2 = alertRules a
  ∧ maxSignals (checkAlerts now a signal).2 = maxSignals a.
Proof. unfold checkAlerts. by destruct (fold_left _ _ _). Qed.

Lemma addAll_buffer a inputs :
  signals (addAll a inputs)
  = foldl (pushBounded (maxSignals a)) (signals a) (snd <$> inputs)
  ∧ maxSignals (addAll a inputs) = maxSignals a.
Proof.
  revert a. induction inputs as [|[now s] inputs IH]; intros a; [done|].
  change (addAll a ((now, s) :: inputs))
    with (addAll (addSignal now a s).2 inputs).
  destruct (IH (addSignal now a s).2) as [-> ->]. unfold addSignal.
  destruct (checkAlerts_frame now
    {| signals := pushBounded (maxSignals a) (signals a) s;
       alertRules := alertRules a; lastAlerts := lastAlerts a;
       maxSignals := maxSignals a |} s) as (-> & _ & ->). done.
Qed.

(** C3 (as amended).  From a buffer that holds at most [capacity] signals,
    for a capacity that is not negative, inserting more signals than the
    capacity leaves exactly [capacity] entries, the most recently inserted
    ones in insertion order, both in the coordinator's buffer
    ([registerSignal], default capacity 1000) and in the analytics history
    ([addSignal], default capacity 10000); after every single insertion of
    the run the length is at most the capacity. *)
Theorem history_keeps_most_recent
    (c : AgentCoordinator) (inputs : list (Fresh * PartialSignal.t))
    (a : SignalAnalytics) (timed : list (Z * Signal.t)) :
  0 ≤ bufferSize c →
  Z.of_nat (length (signalBuffer c)) ≤ bufferSize c →
  bufferSize c < Z.of_nat (length inputs) →
  0 ≤ maxSignals a →
  Z.of_nat (length (signals a)) ≤ maxSignals a →
  maxSignals a < Z.of_nat (length timed) →
  (signalBuffer (registerAll c inputs)
   = mostRecent (Z.to_nat (bufferSize c)) ((λ i, fullSignal i.1 i.2) <$> inputs)
   ∧ Z.of_nat (length (signalBuffer (registerAll c inputs))) = bufferSize c
   ∧ ∀ k, Z.of_nat (length (signalBuffer (registerAll c (take k inputs))))
          ≤ bufferSize c)
  ∧ (signals (addAll a timed)
     = mostRecent (Z.to_nat (maxSignals a)) (snd <$> timed)
     ∧ Z.of_nat (length (signals (addAll a timed))) = maxSignals a
     ∧ ∀ k, Z.of_nat (length (signals (addAll a (take k timed))))
            ≤ maxSignals a)
  ∧ bufferSize (newAgentCoordinator None) = 1000
  ∧ maxSignals newSignalAnalytics = 10000.
Proof.
  intros Hc0 Hc HcN Ha0 Ha HaN. split_and!; try reflexivity.
  - rewrite (proj1 (registerAll_buffer _ _)), pushAll_mostRecent by done.
    apply mostRecent_overflow. rewrite length_fmap. lia.
  - rewrite (proj1 (registerAll_buffer _ _)), pushAll_mostRecent by done.
    rewrite mostRecent_length, length_app, length_fmap. lia.
  - intros k. rewrite (proj1 (registerAll_buffer _ _)), pushAll_mostRecent by done.
    rewrite mostRecent_length. lia.
  - rewrite (proj1 (addAll_buffer _ _)), pushAll_mostRecent by done.
    apply mostRecent_overflow. rewrite length_fmap. lia.
  - rewrite (proj1 (addAll_buffer _ _)), pushAll_mostRecent by done.
    rewrite mostRecent_length, length_app, length_fmap. lia.
  - intros k. rewrite (proj1 (addAll_buffer _ _)), pushAll_mostRecent by done.
    rewrite mostRecent_length. lia.
Qed.

Lemma history_keeps_most_recent_witness :
  let f := mkFresh "coord_1" "sig_coord_1" 1000 in
  let inputs := [(f, simplePartial "A" "x" 1); (f, simplePartial "B" "y" 1);
                 (f, simplePartial "C" "z" 1)] in
  let timed := [(1000, simpleSignal "A" "x" 1000 None);
                (1001, simpleSignal "B" "y" 1001 None);
                (1002, simpleSignal "C" "z" 1002 None)] in
  Signal.type <$> signalBuffer (registerAll (newAgentCoordinator (Some 2)) inputs)
  = ["B"; "C"]
  ∧ Signal.type <$> signals (addAll (setMaxHistorySize newSignalAnalytics 2) timed)
    = ["B"; "C"].
Proof.
  intros f inputs timed.
  destruct (history_keeps_most_recent (newAgentCoordinator (Some 2)) inputs
              (setMaxHistorySize newSignalAnalytics 2) timed)
    as ((-> & _) & (-> & _) & _); try (vm_compute; congruence).
  split; reflexivity.
Defined.

(** C3 (as stated) fails.  An insertion evicts one signal at most, so it
    keeps a bound but does not restore one.  After [setMaxHistorySize(0)]
    on a history of two signals the capacity is 0 and the history still
    holds both; one more insertion, which is more than the capacity, leaves
    two signals, not 0.  A coordinator built with [maxBufferSize: -1] holds
    no signal after an insertion, which is neither -1 entries nor within
    that capacity. *)
Lemma oversized_history_is_kept :
  let s t := simpleSignal "A" "x" t None in
  let a := setMaxHistorySize (addAll newSignalAnalytics [(1, s 1); (2, s 2)]) 0 in
  let timed := [(3, s 3)] in
  let c := newAgentCoordinator (Some (-1)) in
  let inputs :=
    [(mkFresh "coord_1" "sig_coord_1" 1000, simplePartial "A" "x" 1)] in
  maxSignals a = 0
  ∧ maxSignals a < Z.of_nat (length timed)
  ∧ Signal.timestamp <$> signals (addAll a timed) = [2; 3]
  ∧ ¬ (Z.of_nat (length (signals (addAll a timed))) ≤ maxSignals a)
  ∧ bufferSize c = -1
  ∧ bufferSize c < Z.of_nat (length inputs)
  ∧ signalBuffer (registerAll c inputs) = []
  ∧ ¬ (Z.of_nat (length (signalBuffer (registerAll c inputs))) ≤ bufferSize c).
Proof.
  intros s a timed c inputs.
  split_and!; try (vm_compute; reflexivity); vm_compute; intros H; by apply H.
Qed.

(** X26.  [setMaxHistorySize(0)] on a non-empty history: [slice(-0)] is the
    whole array, so the history stays above the new bound, and [addSignal]
    keeps it at that length. *)
Lemma setMaxHistorySize_zero a s now :
  signals (setMaxHistorySize a 0) = signals a
  ∧ (signals a ≠ [] →
     length (signals (addSignal now (setMaxHistorySize a 0) s).2)
     = length (signals a)).
Proof.
  assert (Hkeep : signals (setMaxHistorySize a 0) = signals a).
  { unfold setMaxHistorySize, sliceFrom. simpl.
    destruct (0 <? _); [|done].
    by replace (Z.to_nat _) with 0%nat by lia. }
  split; [done|]. intros Hne.
  unfold addSignal. rewrite (proj1 (checkAlerts_frame _ _ _)).
  cbn [signals]. change (maxSignals (setMaxHistorySize a 0)) with 0.
  rewrite Hkeep. unfold pushBounded. rewrite length_app. simpl.
  destruct (Z.ltb_spec 0 (Z.of_nat (length (signals a) + 1))); [|lia].
  destruct (signals a); [done|]. simpl. rewrite length_app. simpl. lia.
Qed.

(** C2 (the code departs from it).  Neither [registerSignal] nor [addSignal]
    validates its argument: a signal with confidence 1.5, and one with an
    empty type and agent and confidence -1, are appended to the history of a
    fresh coordinator and of a fresh analytics instance, and no error is
    reported. *)
Theorem invalid_signal_enters_history (f : Fresh) :
  let invalid := simplePartial "TEST_SIGNAL" "test" (15 # 10) in
  let blank := simplePartial "" "" (-1 # 1) in
  signalBuffer (registerSignal f (newAgentCoordinator None) invalid).1
  = [fullSignal f invalid]
  ∧ Signal.confidence (fullSignal f invalid) = Some (15 # 10)%Q
  ∧ signalBuffer (registerSignal f (newAgentCoordinator None) blank).1
    = [fullSignal f blank]
  ∧ signals (addSignal (freshNow f) newSignalAnalytics (fullSignal f invalid)).2
    = [fullSignal f invalid]
  ∧ signals (addSignal (freshNow f) newSignalAnalytics (fullSignal f blank)).2
    = [fullSignal f blank].
Proof.
  intros invalid blank. split_and!; try reflexivity.
  - unfold addSignal. by rewrite (proj1 (checkAlerts_frame _ _ _)).
  - unfold addSignal. by rewrite (proj1 (checkAlerts_frame _ _ _)).
Qed.

(** ** The alert loop *)

Lemma orZ_0_r x : orZ x 0 = x.
Proof. unfold orZ. destruct (Z.eqb_spec x 0); congruence. Qed.

Lemma setProperty_lookup_ne {V} (k j : string) (v : V) (table : gmap string V) :
  j ≠ k → setProperty k v table !! j = table !! j.
Proof.
  intros Hne. unfold setProperty. case_bool_decide; [done|].
  by rewrite lookup_insert_ne.
Qed.

Lemma setProperty_lookup_eq {V} (k : string) (v : V) (table : gmap string V) :
  setProperty k v table !! k
  = if bool_decide (k = "__proto__") then table !! k else Some v.
Proof.
  unfold setProperty. case_bool_decide; [done|]. by rewrite lookup_insert_eq.
Qed.


Lemma coolingDown_none now last rule :
  last !! AlertRule.id rule = None →
  AlertRule.cooldown rule ≤ now →
  coolingDown now last rule = false.
Proof.
  intros Hl Hnow. unfold coolingDown, getProperty. rewrite Hl.
  destruct (inherited _); [done|]. apply Z.ltb_ge. lia.
Qed.

Section Alerts.
Variables (now : Z) (signal : Signal.t).

Lemma checkAlertRule_due triggered last rule :
  checkAlertRule now signal (triggered, last) rule
  = if due now last signal rule
    then (triggered ++ [triggerAlert now rule signal],
          setProperty (AlertRule.id rule) now last)
    else (triggered, last).
Proof.
  unfold checkAlertRule, due.
  destruct (AlertRule.enabled rule); simpl; [|done].
  destruct (coolingDown now last rule); simpl; [done|].
  by destruct (AlertRule.condition rule signal).
Qed.

Lemma due_lookup last last' rule :
  last' !! AlertRule.id rule = last !! AlertRule.id rule →
  due now last' signal rule = due now last signal rule.
Proof. intros Heq. unfold due, coolingDown, getProperty. by rewrite Heq. Qed.

Lemma due_insert_ne last rule i t :
  AlertRule.id rule ≠ i →
  due now (setProperty i t last) signal rule = due now last signal rule.
Proof. intros Hne. apply due_lookup. by apply setProperty_lookup_ne. Qed.

(** Rules of other ids neither add an alert for [i] nor touch its entry. *)
Lemma fold_checkAlertRule_other i rules triggered last :
  (∀ r, r ∈ rules → AlertRule.id r ≠ i) →
  alertsFor i (fold_left (checkAlertRule now signal) rules (triggered, last)).1
  = alertsFor i triggered
  ∧ (fold_left (checkAlertRule now signal) rules (triggered, last)).2 !! i
    = last !! i.
Proof.
  revert triggered last.
  induction rules as [|r rules IH]; intros triggered last Hother; [done|].
  cbn [fold_left]. rewrite checkAlertRule_due.
  assert (Hr : AlertRule.id r ≠ i) by (apply Hother; left).
  assert (Hrest : ∀ r', r' ∈ rules → AlertRule.id r' ≠ i)
    by (intros ??; apply Hother; by right).
  destruct (due now last signal r).
  - destruct (IH (triggered ++ [triggerAlert now r signal])
                (setProperty (AlertRule.id r) now last) Hrest) as [-> ->].
    split; [|by rewrite setProperty_lookup_ne].
    unfold alertsFor. rewrite filter_app, filter_cons_False, filter_nil by done.
    by rewrite app_nil_r.
  - by apply IH.
Qed.

(** With pairwise distinct ids the loop returns one alert per due rule,
    in rule order, each judged against the table the call started with. *)
Lemma fold_checkAlertRule_all rules triggered last :
  NoDup (AlertRule.id <$> rules) →
  (fold_left (checkAlertRule now signal) rules (triggered, last)).1
  = triggered ++ ((λ r, triggerAlert now r signal)
                    <$> filter (λ r, due now last signal r = true) rules).
Proof.
  revert triggered last.
  induction rules as [|r rules IH]; intros triggered last Hnd.
  - simpl. by rewrite app_nil_r.
  - cbn [fold_left]. rewrite checkAlertRule_due.
    rewrite fmap_cons in Hnd. apply NoDup_cons in Hnd as [Hr Hnd].
    assert (Hext : ∀ t, filter (λ r', due now (setProperty (AlertRule.id r) t last)
                                        signal r' = true) rules
                        = filter (λ r', due now last signal r' = true) rules).
    { intros t. clear IH Hnd. induction rules as [|r' rules IH]; [done|].
      rewrite fmap_cons, not_elem_of_cons in Hr. destruct Hr as [Hne Hr].
      rewrite !filter_cons, due_insert_ne by done. by rewrite IH. }
    destruct (due now last signal r) eqn:Hdue.
    + rewrite IH, Hext by done. rewrite filter_cons_True by done.
      by rewrite fmap_cons, <-app_assoc.
    + rewrite IH by done. by rewrite filter_cons_False by congruence.
Qed.

(** The alerts and the cooldown entry of a rule whose id no other rule
    of the list shares. *)
Lemma fold_checkAlertRule_one pre rule post triggered last :
  (∀ r, r ∈ pre ++ post → AlertRule.id r ≠ AlertRule.id rule) →
  let out := fold_left (checkAlertRule now signal) (pre ++ rule :: post)
               (triggered, last) in
  alertsFor (AlertRule.id rule) out.1
  = alertsFor (AlertRule.id rule) triggered
    ++ (if due now last signal rule then [triggerAlert now rule signal] else [])
  ∧ out.2 !! AlertRule.id rule
    = if due now last signal rule
         && negb (bool_decide (AlertRule.id rule = "__proto__"))
      then Some now
      else last !! AlertRule.id rule.
Proof.
  intros Hother out. subst out. rewrite fold_left_app. cbn [fold_left].
  destruct (fold_left (checkAlertRule now signal) pre (triggered, last))
    as [triggered1 last1] eqn:Hpre.
  destruct (fold_checkAlertRule_other (AlertRule.id rule) pre triggered last)
    as [Ht1 Hl1]; [intros ??; apply Hother, elem_of_app; by left|].
  rewrite Hpre in Ht1, Hl1. simpl in Ht1, Hl1.
  rewrite checkAlertRule_due, (due_lookup last last1) by done.
  assert (Hpost : ∀ r, r ∈ post → AlertRule.id r ≠ AlertRule.id rule)
    by (intros ??; apply Hother, elem_of_app; by right).
  destruct (due now last signal rule).
  - destruct (fold_checkAlertRule_other (AlertRule.id rule) post
                (triggered1 ++ [triggerAlert now rule signal])
                (setProperty (AlertRule.id rule) now last1) Hpost) as [-> ->].
    split.
    + unfold alertsFor in *. rewrite filter_app, Ht1.
      by rewrite filter_cons_True by done.
    + rewrite setProperty_lookup_eq. simpl. by case_bool_decide.
  - destruct (fold_checkAlertRule_other (AlertRule.id rule) post
                triggered1 last1 Hpost) as [-> ->].
    by rewrite Ht1, Hl1, app_nil_r.
Qed.
End Alerts.

Lemma NoDup_ids_split rules rule :
  NoDup (AlertRule.id <$> rules) → rule ∈ rules →
  ∃ pre post, rules = pre ++ rule :: post
    ∧ ∀ r, r ∈ pre ++ post → AlertRule.id r ≠ AlertRule.id rule.
Proof.
  intros Hnd Hin. apply list_elem_of_split in Hin as (pre & post & ->).
  exists pre, post. split; [done|].
  rewrite fmap_app, fmap_cons in Hnd.
  apply NoDup_app in Hnd as (_ & Hpre & Hpost).
  apply NoDup_cons in Hpost as [Hpost _].
  intros r [Hr|Hr]%elem_of_app Heq.
  - apply (Hpre (AlertRule.id r)); [by apply list_elem_of_fmap_2|].
    rewrite Heq. left.
  - apply Hpost. rewrite <-Heq. by apply list_elem_of_fmap_2.
Qed.

(** One call of [addSignal], seen from a rule whose id is unique. *)
Lemma addSignal_rule now a signal rule :
  NoDup (AlertRule.id <$> alertRules a) → rule ∈ alertRules a →
  alertsFor (AlertRule.id rule) (addSignal now a signal).1
  = (if due now (lastAlerts a) signal rule
     then [triggerAlert now rule signal] else [])
  ∧ lastAlerts (addSignal now a signal).2 !! AlertRule.id rule
    = (if due now (lastAlerts a) signal rule
          && negb (bool_decide (AlertRule.id rule = "__proto__"))
       then Some now
       else lastAlerts a !! AlertRule.id rule)
  ∧ alertRules (addSignal now a signal).2 = alertRules a.
Proof.
  intros Hnd Hin.
  destruct (NoDup_ids_split _ _ Hnd Hin) as (pre & post & Hrules & Hother).
  pose proof (fold_checkAlertRule_one now signal pre rule post []
                (lastAlerts a) Hother) as [Ht Hl].
  unfold addSignal, checkAlerts. simpl. rewrite Hrules.
  destruct (fold_left _ _ _) as [triggered last']. simpl in *.
  by rewrite Ht, Hl.
Qed.

Lemma addSignal_alerts now a signal :
  NoDup (AlertRule.id <$> alertRules a) →
  (addSignal now a signal).1
  = (λ r, triggerAlert now r signal)
      <$> filter (λ r, due now (lastAlerts a) signal r = true) (alertRules a).
Proof.
  intros Hnd.
  pose proof (fold_checkAlertRule_all now signal (alertRules a) []
                (lastAlerts a) Hnd) as Hall.
  unfold addSignal, checkAlerts. simpl.
  destruct (fold_left _ _ _) as [triggered last']. by simpl in *.
Qed.

(** C5 (the code departs from it).  A rule whose id is [__proto__] is never
    held back by its cooldown: the write [this.lastAlerts[rule.id] = now]
    is ignored for that key, so no firing is recorded, and the read
    [this.lastAlerts[rule.id]] yields the inherited prototype, for which the
    cooldown test is false.  With a cooldown of 5000 ms, two qualifying
    signals 1000 ms apart both trigger the rule. *)
Theorem proto_rule_ignores_cooldown :
  let rule := simpleAlertRule "__proto__" 5000 true in
  let a := addAlertRule newSignalAnalytics rule in
  let s := simpleSignal "COOLDOWN" "test" 1000000 (Some (8 # 10)%Q) in
  let r1 := addSignal 1000000 a s in
  let r2 := addSignal 1001000 r1.2 s in
  r1.1 = [triggerAlert 1000000 rule s]
  ∧ lastAlerts r1.2 !! "__proto__" = None
  ∧ coolingDown 1001000 (lastAlerts r1.2) rule = false
  ∧ r2.1 = [triggerAlert 1001000 rule s]
  ∧ lastAlerts r2.2 !! "__proto__" = None.
Proof. intros rule a s r1 r2. vm_compute. split_and!; reflexivity. Qed.



(** C10.  [removeAlertRule] drops exactly the rules whose id is [ruleId],
    keeps the others as they are and in order, deletes the [lastAlerts]
    entry of [ruleId] and no other, and leaves the history alone.  A rule
    added afterwards under that id is judged as one that never fired: on a
    qualifying signal it fires at once, whatever cooldown entry the removed
    rule had. *)
Theorem removeAlertRule_frame
    (a : SignalAnalytics) (ruleId : string) (rule : AlertRule.t)
    (now : Z) (signal : Signal.t) :
  AlertRule.id rule = ruleId →
  AlertRule.enabled rule = true →
  AlertRule.condition rule signal = true →
  AlertRule.cooldown rule ≤ now →
  let a' := removeAlertRule a ruleId in
  (∀ r, r ∈ alertRules a' ↔ r ∈ alertRules a ∧ AlertRule.id r ≠ ruleId)
  ∧ sublist (alertRules a') (alertRules a)
  ∧ lastAlerts a' !! ruleId = None
  ∧ (∀ j, j ≠ ruleId → lastAlerts a' !! j = lastAlerts a !! j)
  ∧ signals a' = signals a
  ∧ maxSignals a' = maxSignals a
  ∧ alertsFor ruleId (addSignal now (addAlertRule a' rule) signal).1
    = [triggerAlert now rule signal].
Proof.
  intros Hid Hen Hcond Hcool a'. split_and!; try done.
  - intros r. simpl. rewrite list_elem_of_filter. tauto.
  - apply sublist_filter.
  - apply lookup_delete_eq.
  - intros j Hj. by apply lookup_delete_ne.
  - pose proof (fold_checkAlertRule_one now signal (alertRules a') rule [] []
                  (lastAlerts a')) as Hone.
    unfold addSignal, checkAlerts. simpl in *.
    destruct (fold_left _ _ _) as [triggered last'].
    destruct Hone as [Ht _].
    { intros r. rewrite app_nil_r, list_elem_of_filter. rewrite Hid. tauto. }
    simpl in Ht. rewrite Hid in Ht. simpl. rewrite Ht.
    unfold due. rewrite Hen, Hcond, coolingDown_none; [done| |done].
    rewrite Hid. apply lookup_delete_eq.
Qed.

Lemma removeAlertRule_frame_witness :
  let rule := simpleAlertRule "test-alert" 5000 true in
  let s := simpleSignal "TEST" "test" 1000000 None in
  let a := (addSignal 1000000 (addAlertRule newSignalAnalytics rule) s).2 in
  lastAlerts a !! "test-alert" = Some 1000000
  ∧ alertsFor "test-alert" (addSignal 1000001 a s).1 = []
  ∧ alertsFor "test-alert"
      (addSignal 1000001 (addAlertRule (removeAlertRule a "test-alert") rule) s).1
    = [triggerAlert 1000001 rule s].
Proof.
  intros rule s a. split_and!.
  - vm_compute. reflexivity.
  - vm_compute. reflexivity.
  - apply (removeAlertRule_frame a "test-alert" rule 1000001 s).
    + reflexivity.
    + reflexivity.
    + reflexivity.
    + vm_compute. discriminate.
Defined.

(** ** Metrics *)

Lemma inherited_proto : inherited "__proto__" = true.
Proof. reflexivity. Qed.

Lemma bump_lookup_ne k k' m : k ≠ k' → bump k m !! k' = m !! k'.
Proof.
  intros Hne. unfold bump.
  destruct (getProperty m k) as [[n|]| |]; by apply setProperty_lookup_ne.
Qed.

Lemma bump_lookup_plain k m n :
  inherited k = false → m !! k = tally n → bump k m !! k = tally (S n).
Proof.
  intros Hk Hm. unfold bump, getProperty. rewrite Hm, Hk.
  assert (Hp : bool_decide (k = "__proto__") = false).
  { apply bool_decide_eq_false. intros ->. discriminate Hk. }
  destruct n as [|n]; simpl; by rewrite setProperty_lookup_eq, Hp.
Qed.

Lemma bump_lookup_member k m (b : bool) :
  inherited k = true → k ≠ "__proto__" →
  m !! k = (if b then Some Tally.text else None) →
  bump k m !! k = Some Tally.text.
Proof.
  intros Hk Hne Hm. unfold bump, getProperty. rewrite Hm, Hk.
  assert (Hp : bool_decide (k = "__proto__") = false)
    by by apply bool_decide_eq_false.
  destruct b; by rewrite setProperty_lookup_eq, Hp.
Qed.

Lemma bump_lookup_proto k m :
  m !! "__proto__" = None → bump k m !! "__proto__" = None.
Proof.
  intros Hm. destruct (decide (k = "__proto__")) as [->|Hne].
  - unfold bump, getProperty. rewrite Hm, inherited_proto.
    by rewrite setProperty_lookup_eq.
  - by rewrite bump_lookup_ne.
Qed.

Section Counting.
(** One of the three counting tables of [getMetrics] and the key it is
    indexed by. *)
Variables (table : MetricsAcc → gmap string Tally.t) (key : Signal.t → string).
Hypothesis table_step :
  ∀ acc s, table (metricsStep acc s) = bump (key s) (table acc).

Lemma fold_metricsStep_count signals acc k n :
  inherited k = false →
  table acc !! k = tally n →
  table (fold_left metricsStep signals acc) !! k
  = tally (n + length (filter (λ s, key s = k) signals)).
Proof.
  intros Hk. revert acc n.
  induction signals as [|s signals IH]; intros acc n Hacc.
  - simpl. by rewrite Nat.add_0_r.
  - cbn [fold_left]. rewrite filter_cons.
    destruct (decide (key s = k)) as [Heq|Hne].
    + rewrite (IH _ (S n)).
      * f_equal. simpl. lia.
      * rewrite table_step, Heq. by apply bump_lookup_plain.
    + apply IH. by rewrite table_step, bump_lookup_ne.
Qed.

Lemma fold_metricsStep_member signals acc k (b : bool) :
  inherited k = true → k ≠ "__proto__" →
  table acc !! k = (if b then Some Tally.text else None) →
  table (fold_left metricsStep signals acc) !! k
  = if b || negb (length (filter (λ s, key s = k) signals) =? 0)%nat
    then Some Tally.text else None.
Proof.
  intros Hk Hp. revert acc b.
  induction signals as [|s signals IH]; intros acc b Hacc.
  - simpl. by rewrite orb_false_r.
  - cbn [fold_left]. rewrite filter_cons.
    destruct (decide (key s = k)) as [Heq|Hne].
    + rewrite (IH _ true).
      * simpl. by rewrite orb_true_r.
      * rewrite table_step, Heq. by apply (bump_lookup_member _ _ b).
    + apply IH. by rewrite table_step, bump_lookup_ne.
Qed.

Lemma fold_metricsStep_proto signals acc :
  table acc !! "__proto__" = None →
  table (fold_left metricsStep signals acc) !! "__proto__" = None.
Proof.
  revert acc. induction signals as [|s signals IH]; intros acc Hacc; [done|].
  cbn [fold_left]. apply IH. rewrite table_step. by apply bump_lookup_proto.
Qed.
End Counting.

Lemma bucket_total d q : bucketTotal (bucket d q) = S (bucketTotal d).
Proof.
  unfold bucket, bucketTotal.
  destruct (Qle_bool (8 # 10) q); [simpl; lia|].
  destruct (Qle_bool (7 # 10) q); simpl; lia.
Qed.

Lemma scored_cons s signals :
  scored (s :: signals)
  = match Signal.confidence s with
    | Some _ => s :: scored signals
    | None => scored signals
    end.
Proof.
  unfold scored. rewrite filter_cons.
  destruct (Signal.confidence s) eqn:Hs.
  - destruct (decide _) as [|Hn]; [done|]. destruct Hn. by eexists.
  - destruct (decide _) as [[? [=]]|]; done.
Qed.

Lemma fold_metricsStep_scored signals acc :
  let out := fold_left metricsStep signals acc in
  confidenceCount out = (confidenceCount acc + length (scored signals))%nat
  ∧ bucketTotal (accDistribution out)
    = (bucketTotal (accDistribution acc) + length (scored signals))%nat
  ∧ (totalConfidence out == totalConfidence acc + Qsum (confidences signals))%Q.
Proof.
  revert acc. induction signals as [|s signals IH]; intros acc.
  - simpl. split_and!; [lia..|by rewrite Qplus_0_r].
  - cbn [fold_left]. destruct (IH (metricsStep acc s)) as (Hc & Hb & Ht).
    cbn zeta. rewrite Hc, Hb, Ht, scored_cons. unfold confidences. simpl.
    destruct (Signal.confidence s) as [q|]; simpl.
    + rewrite bucket_total. split_and!; [lia..|by rewrite Qplus_assoc].
    + done.
Qed.

Lemma confidences_length signals :
  length (confidences signals) = length (scored signals).
Proof.
  induction signals as [|s signals IH]; [done|].
  rewrite scored_cons. unfold confidences in *. simpl.
  destruct (Signal.confidence s); simpl; auto.
Qed.

Lemma metricsWindow_nonzero timeWindow : metricsWindow timeWindow ≠ 0.
Proof.
  unfold metricsWindow, orZ.
  destruct (Z.eqb_spec (default 0 timeWindow) 0); [discriminate|done].
Qed.

Lemma Qdiv_0_l q : (natQ 0 / q == 0)%Q.
Proof. unfold Qdiv. apply Qmult_0_l. Qed.

(** C8.  When no signal of the history falls in the window, in particular
    when the history is empty, [getMetrics] reports no signals, an average
    confidence of 0, rates of 0, empty tables and a time range collapsed on
    the current time; the two divisors it uses are non-zero. *)
Theorem metrics_of_empty_window
    (now : Z) (a : SignalAnalytics) (timeWindow : option Z) :
  relevantForMetrics now a (metricsWindow timeWindow) = [] →
  let m := getMetrics now a timeWindow in
  SignalMetrics.totalSignals m = 0%nat
  ∧ SignalMetrics.averageConfidence m = 0%Q
  ∧ (SignalMetrics.signalsPerHour m == 0)%Q
  ∧ (SignalMetrics.signalRate m == 0)%Q
  ∧ (SignalMetrics.averageSignalRate m == 0)%Q
  ∧ SignalMetrics.confidenceDistribution m = ConfidenceDistribution.mk 0 0 0
  ∧ SignalMetrics.signalsByType m = ∅
  ∧ SignalMetrics.signalsByAgent m = ∅
  ∧ SignalMetrics.signalsBySource m = ∅
  ∧ SignalMetrics.agentMetrics m = ∅
  ∧ SignalMetrics.topPatterns m = []
  ∧ SignalMetrics.timeRange m = (now, now)
  ∧ ¬ (hoursInWindow (metricsWindow timeWindow) == 0)%Q
  ∧ ¬ (inject_Z (metricsWindow timeWindow) / 1000 == 0)%Q.
Proof.
  intros Hempty m. subst m. unfold getMetrics. rewrite Hempty. simpl.
  pose proof (metricsWindow_nonzero timeWindow) as Hw.
  split_and!; try reflexivity.
  all: intros H; unfold hoursInWindow, Qeq in H; simpl in H; lia.
Qed.

Lemma metrics_of_empty_window_witness :
  SignalMetrics.totalSignals (getMetrics 1000 newSignalAnalytics None) = 0%nat
  ∧ SignalMetrics.averageConfidence (getMetrics 1000 newSignalAnalytics None) = 0%Q
  ∧ SignalMetrics.timeRange (getMetrics 1000 newSignalAnalytics (Some 0))
    = (1000, 1000).
Proof.
  destruct (metrics_of_empty_window 1000 newSignalAnalytics None)
    as (Ht & Ha & _); [reflexivity|].
  destruct (metrics_of_empty_window 1000 newSignalAnalytics (Some 0))
    as (_ & _ & _ & _ & _ & _ & _ & _ & _ & _ & _ & Hr & _); [reflexivity|].
  exact (conj Ht (conj Ha Hr)).
Defined.

(** C9 (the code departs from it).  A signal without a confidence whose
    type is [constructor] and whose source is [toString] counts in
    [totalSignals], but not in the per-type, per-source and per-agent
    tables: [(table[key] || 0) + 1] reads the member the table inherits
    under that name, so the table holds a string under the key, not the
    count 1. *)
Theorem member_named_signal_is_not_counted :
  let signal := simpleSignal "constructor" "toString" 1000 None in
  let a := (addSignal 1000 newSignalAnalytics signal).2 in
  let m := getMetrics 1000 a None in
  signals a = [signal]
  ∧ SignalMetrics.totalSignals m = 1%nat
  ∧ SignalMetrics.signalsByType m !! "constructor" = Some Tally.text
  ∧ SignalMetrics.signalsBySource m !! "toString" = Some Tally.text
  ∧ SignalMetrics.signalsByAgent m !! "toString" = Some Tally.text
  ∧ SignalMetrics.signalsByType m !! "constructor" ≠ tally 1.
Proof.
  intros signal a m. vm_compute. split_and!; try reflexivity. discriminate.
Qed.

(** X29.  In a metrics snapshot every signal of the window counts in
    [totalSignals], with or without a confidence, and, under every key
    that is not the name of a member of [Object.prototype], in the
    per-type, per-source and per-agent tables, which hold no entry for a
    key of that kind without signals.  Under the name of such a member a
    table holds a string once a signal carries it, and nothing at all under
    [__proto__].  Only the signals that carry a confidence enter the three
    buckets of the confidence distribution, whose sum is their number, and
    [averageConfidence], which is their mean.  That number is at most
    [totalSignals] and can be smaller. *)
Theorem unscored_signals_counted
    (now : Z) (a : SignalAnalytics) (timeWindow : option Z) :
  let window := relevantForMetrics now a (metricsWindow timeWindow) in
  let m := getMetrics now a timeWindow in
  SignalMetrics.totalSignals m = length window
  ∧ (∀ k, inherited k = false →
       SignalMetrics.signalsByType m !! k
       = tally (length (filter (λ s, Signal.type s = k) window))
       ∧ SignalMetrics.signalsBySource m !! k
         = tally (length (filter (λ s, Signal.source s = k) window))
       ∧ SignalMetrics.signalsByAgent m !! k
         = tally (length (filter (λ s, agentOf s = k) window)))
  ∧ (∀ k, inherited k = true → k ≠ "__proto__" →
       SignalMetrics.signalsByType m !! k
       = (if (length (filter (λ s, Signal.type s = k) window) =? 0)%nat
          then None else Some Tally.text)
       ∧ SignalMetrics.signalsBySource m !! k
         = (if (length (filter (λ s, Signal.source s = k) window) =? 0)%nat
            then None else Some Tally.text)
       ∧ SignalMetrics.signalsByAgent m !! k
         = (if (length (filter (λ s, agentOf s = k) window) =? 0)%nat
            then None else Some Tally.text))
  ∧ SignalMetrics.signalsByType m !! "__proto__" = None
  ∧ SignalMetrics.signalsBySource m !! "__proto__" = None
  ∧ SignalMetrics.signalsByAgent m !! "__proto__" = None
  ∧ bucketTotal (SignalMetrics.confidenceDistribution m) = length (scored window)
  ∧ (SignalMetrics.averageConfidence m
     == match scored window with
        | [] => 0
        | _ => Qsum (confidences window) / natQ (length (scored window))
        end)%Q
  ∧ (length (scored window) ≤ SignalMetrics.totalSignals m)%nat
  ∧ ∃ now' a' timeWindow',
      (length (scored (relevantForMetrics now' a' (metricsWindow timeWindow')))
       < SignalMetrics.totalSignals (getMetrics now' a' timeWindow'))%nat.
Proof.
  intros window m. subst m. unfold getMetrics. fold window. simpl.
  destruct (fold_metricsStep_scored window emptyAcc) as (Hc & Hb & Ht).
  simpl in Hc, Hb, Ht.
  split_and!.
  - done.
  - intros k Hk. split_and!.
    + by apply (fold_metricsStep_count accByType Signal.type
                  (λ _ _, eq_refl) window emptyAcc k 0).
    + by apply (fold_metricsStep_count accBySource Signal.source
                  (λ _ _, eq_refl) window emptyAcc k 0).
    + by apply (fold_metricsStep_count accByAgent agentOf
                  (λ _ _, eq_refl) window emptyAcc k 0).
  - intros k Hk Hp. split_and!.
    + rewrite (fold_metricsStep_member accByType Signal.type
                 (λ _ _, eq_refl) window emptyAcc k false) by done.
      simpl. by destruct (_ =? _)%nat.
    + rewrite (fold_metricsStep_member accBySource Signal.source
                 (λ _ _, eq_refl) window emptyAcc k false) by done.
      simpl. by destruct (_ =? _)%nat.
    + rewrite (fold_metricsStep_member accByAgent agentOf
                 (λ _ _, eq_refl) window emptyAcc k false) by done.
      simpl. by destruct (_ =? _)%nat.
  - by apply (fold_metricsStep_proto accByType Signal.type (λ _ _, eq_refl)).
  - by apply (fold_metricsStep_proto accBySource Signal.source (λ _ _, eq_refl)).
  - by apply (fold_metricsStep_proto accByAgent agentOf (λ _ _, eq_refl)).
  - done.
  - rewrite Hc.
    destruct (scored window) as [|s l] eqn:Hs; [reflexivity|].
    cbn [length Nat.ltb Nat.leb]. by rewrite Ht, Qplus_0_l.
  - apply length_filter.
  - exists 1000,
      (mkAnalytics [simpleSignal "NO_CONFIDENCE" "test" 1000 None] [] ∅ 10000),
      None.
    vm_compute. lia.
Qed.

Lemma unscored_signals_counted_witness :
  let unscored := simpleSignal "NO_CONFIDENCE" "test" 1000 None in
  let scored_one := simpleSignal "NO_CONFIDENCE" "test" 1001 (Some (1 # 2)%Q) in
  let a := mkAnalytics [unscored; scored_one] [] ∅ 10000 in
  let m := getMetrics 2000 a None in
  SignalMetrics.signalsByType m !! "NO_CONFIDENCE" = Some (Tally.number 2)
  ∧ SignalMetrics.signalsBySource m !! "test" = Some (Tally.number 2)
  ∧ bucketTotal (SignalMetrics.confidenceDistribution m) = 1%nat.
Proof.
  intros unscored scored_one a m.
  destruct (unscored_signals_counted 2000 a None)
    as (_ & Hplain & _ & _ & _ & _ & Hbucket & _).
  destruct (Hplain "NO_CONFIDENCE") as (Htype & _); [reflexivity|].
  destruct (Hplain "test") as (_ & Hsource & _); [reflexivity|].
  exact (conj Htype (conj Hsource Hbucket)).
Defined.

(** ** Active signals and statistics of the coordinator *)

Lemma filter_narrow {A} (P Q : A → Prop) `{!∀ x, Decision (P x)}
    `{!∀ x, Decision (Q x)} (l : list A) :
  (∀ x, P x → Q x) → filter P l = filter P (filter Q l).
Proof.
  intros HPQ. induction l as [|x l IH]; [done|].
  rewrite (filter_cons Q). destruct (decide (Q x)).
  - rewrite !filter_cons. destruct (decide (P x)); by rewrite IH.
  - rewrite filter_cons_False by naive_solver. done.
Qed.

(** X1.  [getRelevantSignals] is [getActiveSignals] restricted to the
    requested types; [correlateSignals] holds exactly when every requested
    type occurs among the active signals of its window (the default window
    standing in for 0); a wider window keeps every active signal of a
    narrower one, in order; and an absent window means 60000 ms. *)
Theorem active_signals_compose
    (now : Z) (c : AgentCoordinator) (signalTypes : list string) (w w' : Z) :
  w ≤ w' →
  getRelevantSignals now c signalTypes w
  = filter (λ s, Signal.type s ∈ signalTypes) (getActiveSignals now c (Some w))
  ∧ (correlateSignals now c signalTypes (Some w) = true ↔
     ∀ ty, ty ∈ signalTypes →
       ty ∈ Signal.type
              <$> getActiveSignals now c (Some (orZ w defaultTimeWindow)))
  ∧ sublist (getActiveSignals now c (Some w)) (getActiveSignals now c (Some w'))
  ∧ getActiveSignals now c None = getActiveSignals now c (Some 60000).
Proof.
  intros Hw. split_and!.
  - unfold getRelevantSignals, getActiveSignals. simpl.
    rewrite list_filter_filter. apply list_filter_iff. intros s. tauto.
  - rewrite correlateSignals_true. unfold getActiveSignals. simpl.
    split; intros H ty Hty.
    + destruct (H ty Hty) as (s & Hs & <- & Hin).
      apply list_elem_of_fmap_2, list_elem_of_filter. done.
    + apply H, list_elem_of_fmap in Hty as (s & -> & Hs).
      apply list_elem_of_filter in Hs as [? ?]. eauto.
  - unfold getActiveSignals. simpl.
    rewrite (filter_narrow _ (λ s, now - Signal.timestamp s ≤ w'))
      by (intros; lia).
    apply sublist_filter.
  - done.
Qed.

Lemma active_signals_compose_witness :
  let old := simpleSignal "A" "x" 900 None in
  let recent := simpleSignal "B" "y" 990 None in
  let c := withBuffer (newAgentCoordinator None) [old; recent] in
  getRelevantSignals 1000 c ["B"] 30 = [recent]
  ∧ sublist (getActiveSignals 1000 c (Some 30)) (getActiveSignals 1000 c (Some 200)).
Proof.
  intros old recent c.
  destruct (active_signals_compose 1000 c ["B"] 30 200) as (H1 & _ & H3 & _).
  - vm_compute. discriminate.
  - split; [|exact H3]. rewrite H1. vm_compute. reflexivity.
Defined.

Lemma uniqueFrom_elem seen xs x :
  x ∈ uniqueFrom seen xs ↔ x ∈ xs ∧ x ∉ seen.
Proof.
  revert seen. induction xs as [|y xs IH]; intros seen; simpl.
  - rewrite elem_of_nil. tauto.
  - destruct (bool_decide_reflect (y ∈ seen)) as [Hy|Hy].
    + rewrite IH, elem_of_cons. split; [tauto|].
      intros [[->|?] ?]; tauto.
    + rewrite !elem_of_cons, IH, elem_of_union, elem_of_singleton.
      split.
      * intros [->|[? ?]]; tauto.
      * intros [[->|?] ?]; [tauto|].
        destruct (decide (x = y)) as [->|?]; tauto.
Qed.

Lemma uniqueFrom_NoDup seen xs : NoDup (uniqueFrom seen xs).
Proof.
  revert seen. induction xs as [|y xs IH]; intros seen; simpl.
  - constructor.
  - destruct (bool_decide (y ∈ seen)); [apply IH|].
    constructor; [|apply IH].
    rewrite uniqueFrom_elem, elem_of_union, elem_of_singleton. tauto.
Qed.

Lemma unique_elem xs x : x ∈ unique xs ↔ x ∈ xs.
Proof.
  unfold unique. rewrite uniqueFrom_elem. split; [tauto|].
  intros ?. split; [done|]. apply not_elem_of_empty.
Qed.

Lemma unique_size xs :
  size (list_to_set xs : gset string) = length (unique xs).
Proof.
  rewrite <-(size_list_to_set (C:=gset string) (unique xs))
    by apply uniqueFrom_NoDup.
  f_equal. apply set_eq. intros x.
  by rewrite !elem_of_list_to_set, unique_elem.
Qed.

Lemma unique_length xs : (length (unique xs) ≤ length xs)%nat.
Proof.
  unfold unique. generalize (∅ : gset string).
  induction xs as [|y xs IH]; intros seen; simpl; [lia|].
  destruct (bool_decide (y ∈ seen)); simpl; [specialize (IH seen)|
    specialize (IH ({[y]} ∪ seen))]; lia.
Qed.

(** X2.  In [getSignalStats] the numbers of distinct types and of distinct
    sources are the numbers of first occurrences in the buffer; neither
    exceeds the total, and each is 0 only for an empty buffer. *)
Theorem signal_stats_distinct (c : AgentCoordinator) :
  let stats := getSignalStats c in
  SignalStats.total stats = length (signalBuffer c)
  ∧ SignalStats.unique_types stats
    = length (unique (Signal.type <$> signalBuffer c))
  ∧ SignalStats.agents stats
    = length (unique (Signal.source <$> signalBuffer c))
  ∧ (SignalStats.unique_types stats ≤ SignalStats.total stats)%nat
  ∧ (SignalStats.agents stats ≤ SignalStats.total stats)%nat
  ∧ (SignalStats.unique_types stats = 0%nat ↔ signalBuffer c = [])
  ∧ (SignalStats.agents stats = 0%nat ↔ signalBuffer c = []).
Proof.
  assert (Hzero : ∀ xs, length (unique xs) = 0%nat ↔ xs = []).
  { intros xs. split; [|by intros ->].
    destruct xs as [|x xs]; [done|]. intros Hlen.
    apply length_zero_iff_nil in Hlen.
    assert (Hx : x ∈ unique (x :: xs)) by (apply unique_elem; left).
    rewrite Hlen in Hx. by apply elem_of_nil in Hx. }
  simpl. rewrite !unique_size. split_and!; try done.
  - etrans; [apply unique_length|]. by rewrite length_fmap.
  - etrans; [apply unique_length|]. by rewrite length_fmap.
  - rewrite Hzero. split; [apply fmap_nil_inv|by intros ->].
  - rewrite Hzero. split; [apply fmap_nil_inv|by intros ->].
Qed.

Lemma newAgentCoordinator_size maxBufferSize :
  0 ≤ default 0 maxBufferSize → 0 < bufferSize (newAgentCoordinator maxBufferSize).
Proof.
  intros H. simpl. unfold orZ.
  destruct (Z.eqb_spec (default 0 maxBufferSize) 0); lia.
Qed.

(** X3.  A coordinator built with a non-negative [maxBufferSize] (0 or none
    giving 1000) has a positive buffer size, so [getStats] never divides by
    0; after any run of [registerSignal] it buffers the smaller of the
    number of calls and the buffer size, its utilisation lies between 0 and
    100, and is 100 once the calls have filled the buffer. *)
Theorem buffer_utilization
    (maxBufferSize : option Z) (inputs : list (Fresh * PartialSignal.t)) :
  0 ≤ default 0 maxBufferSize →
  let c := registerAll (newAgentCoordinator maxBufferSize) inputs in
  0 < bufferSize c
  ∧ Z.of_nat (CoordinatorStats.bufferedSignals (getStats c))
    = Z.of_nat (length inputs) `min` bufferSize c
  ∧ (0 <= CoordinatorStats.bufferUtilization (getStats c))%Q
  ∧ (CoordinatorStats.bufferUtilization (getStats c) <= 100)%Q
  ∧ (bufferSize c ≤ Z.of_nat (length inputs) →
     (CoordinatorStats.bufferUtilization (getStats c) == 100)%Q).
Proof.
  intros Hopt c.
  pose proof (newAgentCoordinator_size _ Hopt) as Hpos.
  destruct (registerAll_buffer (newAgentCoordinator maxBufferSize) inputs)
    as [Hbuf Hsize]. fold c in Hbuf, Hsize.
  rewrite pushAll_mostRecent in Hbuf by (simpl in *; lia).
  assert (Hlen : Z.of_nat (length (signalBuffer c))
                 = Z.of_nat (length inputs) `min` bufferSize c).
  { rewrite Hbuf, mostRecent_length, Hsize. simpl in *. rewrite length_fmap. lia. }
  rewrite <-Hsize in Hpos. simpl.
  unfold natQ. rewrite Hlen. clear Hbuf Hlen Hsize.
  destruct (bufferSize c) as [|p|p] eqn:Hp; try lia.
  split_and!; try done.
  - unfold Qle. simpl. lia.
  - unfold Qle. simpl. lia.
  - intros Hfull. unfold Qeq. simpl. lia.
Qed.

Lemma buffer_utilization_witness :
  let f := mkFresh "coord_1" "sig_coord_1" 1000 in
  let inputs := [(f, simplePartial "A" "x" 1); (f, simplePartial "B" "y" 1);
                 (f, simplePartial "C" "z" 1)] in
  (CoordinatorStats.bufferUtilization
     (getStats (registerAll (newAgentCoordinator (Some 2%Z)) inputs)) == 100)%Q.
Proof.
  intros f inputs.
  destruct (buffer_utilization (Some 2) inputs) as (_ & _ & _ & _ & H).
  - vm_compute. discriminate.
  - apply H. vm_compute. discriminate.
Defined.

(** ** What a composite holds *)

Lemma compositeOf_inv now c rule composite :
  compositeOf now c rule = Some composite →
  let relevant :=
    getRelevantSignals now c (CorrelationRule.requiredSignals rule)
      (CorrelationRule.timeWindow rule) in
  correlateSignals now c (CorrelationRule.requiredSignals rule)
    (Some (CorrelationRule.timeWindow rule)) = true
  ∧ Qle_bool (CorrelationRule.minConfidence rule)
      (calculateAverageConfidence relevant) = true
  ∧ composite
    = emitCompositeSignal now (CorrelationRule.outputPattern rule)
        (Math_min (calculateAverageConfidence relevant * (11 # 10)) 1)
        (unique (Signal.source <$> relevant))
        (CorrelationRule.id rule) (CorrelationRule.id rule)
        ((λ s, (Signal.type s, Signal.hash s)) <$> relevant).
Proof.
  unfold compositeOf, checkRule.
  destruct (correlateSignals _ _ _ _); simpl; [|done].
  destruct (Qle_bool _ _); simpl; [|done].
  by intros [= <-].
Qed.

(** X4.  The confidence of every composite a rule produces is at most 1,
    whatever the rule; and when the rule's minimum confidence lies in
    [[0, 1]] the confidence is at least that minimum: the boost is capped
    and never takes a composite below its threshold. *)
Theorem composite_confidence_bounds
    (now : Z) (c : AgentCoordinator) (rule : CorrelationRule.t)
    (composite : CompositeSignal.t) :
  compositeOf now c rule = Some composite →
  (CompositeSignal.confidence composite <= 1)%Q
  ∧ ((0 <= CorrelationRule.minConfidence rule)%Q →
     (CorrelationRule.minConfidence rule <= 1)%Q →
     (CorrelationRule.minConfidence rule
      <= CompositeSignal.confidence composite)%Q).
Proof.
  intros Hsome.
  destruct (compositeOf_inv _ _ _ _ Hsome) as (_ & Havg & ->).
  apply Qle_bool_iff in Havg. simpl. rewrite Math_min_Qmin. split.
  - apply Q.le_min_r.
  - intros Hmin0 Hmin1. apply Q.min_glb; [|done]. lra.
Qed.

Lemma composite_confidence_bounds_witness :
  let c := withBuffer (newAgentCoordinator None)
             [simpleSignal "cex_funding_detected" "A" 990 (Some (95 # 100)%Q);
              simpleSignal "rapid_deployment" "B" 995 (Some (95 # 100)%Q)] in
  ∃ rule composite,
    head (correlationRules c) = Some rule
    ∧ compositeOf 1000 c rule = Some composite
    ∧ (8 # 10 <= CompositeSignal.confidence composite)%Q
    ∧ (CompositeSignal.confidence composite <= 1)%Q.
Proof.
  intros c.
  destruct (head (correlationRules c)) as [rule|] eqn:Hrule; [|discriminate Hrule].
  injection Hrule as Hrule.
  destruct (compositeOf 1000 c rule) as [composite|] eqn:Hc;
    [|subst rule; vm_compute in Hc; discriminate Hc].
  exists rule, composite.
  destruct (composite_confidence_bounds 1000 c rule composite Hc) as [Hhi Hlo].
  split_and!; [reflexivity|exact Hc| |exact Hhi].
  subst rule. apply Hlo; vm_compute; discriminate.
Defined.

(** X5.  A composite is labelled with the rule's output pattern as type and
    the rule's id as pattern and as [metadata.ruleId], and stamped [now].
    Its contributing agents are the distinct sources of the relevant
    signals, each once; its trigger list holds the type and hash of every
    relevant signal, in buffer order.  All this holds for every rule; for a
    rule with a non-zero window, moreover, every required type occurs in
    the trigger list. *)
Theorem composite_contents
    (now : Z) (c : AgentCoordinator) (rule : CorrelationRule.t)
    (composite : CompositeSignal.t) :
  compositeOf now c rule = Some composite →
  let relevant :=
    getRelevantSignals now c (CorrelationRule.requiredSignals rule)
      (CorrelationRule.timeWindow rule) in
  CompositeSignal.type composite = CorrelationRule.outputPattern rule
  ∧ CompositeSignal.pattern composite = CorrelationRule.id rule
  ∧ CompositeSignal.metadata_ruleId composite = CorrelationRule.id rule
  ∧ CompositeSignal.timestamp composite = now
  ∧ NoDup (CompositeSignal.contributingAgents composite)
  ∧ (∀ x, x ∈ CompositeSignal.contributingAgents composite ↔
          ∃ s, s ∈ relevant ∧ Signal.source s = x)
  ∧ CompositeSignal.metadata_triggerSignals composite
    = (λ s, (Signal.type s, Signal.hash s)) <$> relevant
  ∧ (CorrelationRule.timeWindow rule ≠ 0 →
     ∀ ty, ty ∈ CorrelationRule.requiredSignals rule →
       ty ∈ fst <$> CompositeSignal.metadata_triggerSignals composite).
Proof.
  intros Hsome relevant.
  destruct (compositeOf_inv _ _ _ _ Hsome) as (Hmatch & _ & ->).
  fold relevant. simpl. split_and!; try done.
  - apply uniqueFrom_NoDup.
  - intros x. rewrite unique_elem, list_elem_of_fmap.
    split; [intros (s & -> & Hs)|intros (s & Hs & <-)]; by exists s.
  - intros Hw ty Hty.
    destruct (proj1 (correlateSignals_true _ _ _ _) Hmatch ty Hty)
      as (s & Hs & Heq & Hin).
    simpl in Hin. unfold orZ in Hin.
    destruct (Z.eqb_spec (CorrelationRule.timeWindow rule) 0); [done|].
    rewrite <-list_fmap_compose. apply list_elem_of_fmap. exists s.
    split; [done|]. apply getRelevantSignals_elem.
    split_and!; [done|lia|by rewrite Heq].
Qed.

Lemma composite_contents_witness :
  let c := withBuffer (newAgentCoordinator None)
             [simpleSignal "cex_funding_detected" "A" 990 (Some (95 # 100)%Q);
              simpleSignal "rapid_deployment" "B" 995 (Some (95 # 100)%Q);
              simpleSignal "rapid_deployment" "A" 996 (Some (95 # 100)%Q)] in
  ∃ rule composite,
    head (correlationRules c) = Some rule
    ∧ compositeOf 1000 c rule = Some composite
    ∧ CompositeSignal.type composite = "coordinated_launch_pattern"
    ∧ NoDup (CompositeSignal.contributingAgents composite)
    ∧ "rapid_deployment"
        ∈ fst <$> CompositeSignal.metadata_triggerSignals composite.
Proof.
  intros c.
  destruct (head (correlationRules c)) as [rule|] eqn:Hrule; [|discriminate Hrule].
  injection Hrule as Hrule.
  destruct (compositeOf 1000 c rule) as [composite|] eqn:Hc;
    [|subst rule; vm_compute in Hc; discriminate Hc].
  exists rule, composite.
  destruct (composite_contents 1000 c rule composite Hc)
    as (Hty & _ & _ & _ & Hnd & _ & _ & Hreq).
  split_and!; [reflexivity|exact Hc| |exact Hnd|].
  - rewrite Hty. subst rule. reflexivity.
  - apply Hreq; subst rule; [discriminate|right; left].
Defined.

Lemma filter_all_false {A} (P : A → Prop) `{!∀ x, Decision (P x)} (l : list A) :
  (∀ x, x ∈ l → ¬ P x) → filter P l = [].
Proof.
  induction l as [|x l IH]; intros Hall; [done|].
  rewrite filter_cons_False by (apply Hall; left).
  apply IH. intros ??. apply Hall. by right.
Qed.

Lemma compositeOf_no_relevant now c rule :
  correlateSignals now c (CorrelationRule.requiredSignals rule)
    (Some (CorrelationRule.timeWindow rule)) = true →
  getRelevantSignals now c (CorrelationRule.requiredSignals rule)
    (CorrelationRule.timeWindow rule) = [] →
  compositeOf now c rule
  = if Qle_bool (CorrelationRule.minConfidence rule) 0
    then Some (emitCompositeSignal now (CorrelationRule.outputPattern rule)
                 (Math_min (0 * (11 # 10)) 1) []
                 (CorrelationRule.id rule) (CorrelationRule.id rule) [])
    else None.
Proof.
  intros Hmatch Hrel. unfold compositeOf, checkRule. rewrite Hmatch, Hrel.
  change (calculateAverageConfidence []) with 0%Q.
  by destruct (Qle_bool (CorrelationRule.minConfidence rule) 0).
Qed.

(** X6.  A rule without required types matches on any buffer, the empty
    one included: it gathers no signal, so it produces a composite of
    confidence 0 with no contributing agent exactly when its minimum
    confidence is at most 0. *)
Theorem empty_requirement_rule
    (now : Z) (c : AgentCoordinator) (rule : CorrelationRule.t) :
  CorrelationRule.requiredSignals rule = [] →
  ((CorrelationRule.minConfidence rule <= 0)%Q →
     ∃ composite,
       compositeOf now c rule = Some composite
       ∧ (CompositeSignal.confidence composite == 0)%Q
       ∧ CompositeSignal.contributingAgents composite = []
       ∧ CompositeSignal.metadata_triggerSignals composite = [])
  ∧ ((0 < CorrelationRule.minConfidence rule)%Q →
     compositeOf now c rule = None).
Proof.
  intros Hreq.
  assert (Hrel : getRelevantSignals now c (CorrelationRule.requiredSignals rule)
                   (CorrelationRule.timeWindow rule) = []).
  { rewrite Hreq. apply filter_all_false.
    intros s _ [_ Hin]. by apply elem_of_nil in Hin. }
  rewrite compositeOf_no_relevant; [|by rewrite Hreq|done].
  split.
  - intros Hle. apply Qle_bool_iff in Hle. rewrite Hle.
    eexists. split; [done|]. simpl. split_and!; done.
  - intros Hlt.
    destruct (Qle_bool (CorrelationRule.minConfidence rule) 0) eqn:Hb; [|done].
    apply Qle_bool_iff in Hb. lra.
Qed.

Lemma empty_requirement_rule_witness :
  ∃ composite,
    compositeOf 1000 (newAgentCoordinator None) (simpleRule "any" [] 30000 0 None)
    = Some composite
    ∧ CompositeSignal.contributingAgents composite = [].
Proof.
  destruct (empty_requirement_rule 1000 (newAgentCoordinator None)
              (simpleRule "any" [] 30000 0 None)) as [Hfire _]; [reflexivity|].
  destruct Hfire as (composite & Hc & _ & Ha & _); [vm_compute; discriminate|].
  exists composite. exact (conj Hc Ha).
Defined.

(** X7.  A rule whose window is 0 is tested for coverage over the default
    60000 ms but gathers only signals stamped at [now] or later.  So when
    its required types are covered by signals of the last minute, all
    stamped before [now], and its minimum confidence is at most 0, it
    produces a composite of confidence 0 without contributing agents. *)
Theorem zero_window_rule
    (now : Z) (c : AgentCoordinator) (rule : CorrelationRule.t) :
  CorrelationRule.timeWindow rule = 0 →
  (CorrelationRule.minConfidence rule <= 0)%Q →
  (∀ s, s ∈ signalBuffer c → Signal.timestamp s < now) →
  (∀ ty, ty ∈ CorrelationRule.requiredSignals rule →
     ∃ s, s ∈ signalBuffer c ∧ Signal.type s = ty
          ∧ now - 60000 ≤ Signal.timestamp s) →
  ∃ composite,
    compositeOf now c rule = Some composite
    ∧ (CompositeSignal.confidence composite == 0)%Q
    ∧ CompositeSignal.contributingAgents composite = []
    ∧ CompositeSignal.metadata_triggerSignals composite = [].
Proof.
  intros Hw Hmin Hpast Hcov.
  assert (Hmatch : correlateSignals now c (CorrelationRule.requiredSignals rule)
                     (Some (CorrelationRule.timeWindow rule)) = true).
  { apply correlateSignals_true. intros ty Hty.
    destruct (Hcov ty Hty) as (s & Hs & Heq & Hin). exists s.
    split_and!; [done..|]. rewrite Hw. unfold orZ, defaultTimeWindow. simpl. lia. }
  assert (Hrel : getRelevantSignals now c (CorrelationRule.requiredSignals rule)
                   (CorrelationRule.timeWindow rule) = []).
  { rewrite Hw. apply filter_all_false.
    intros s Hs [Hin _]. specialize (Hpast s Hs). lia. }
  rewrite compositeOf_no_relevant by done.
  apply Qle_bool_iff in Hmin. rewrite Hmin.
  eexists. split; [done|]. simpl. split_and!; done.
Qed.

Lemma zero_window_rule_witness :
  let c := withBuffer (newAgentCoordinator None)
             [simpleSignal "A" "x" 990000 (Some (9 # 10)%Q)] in
  ∃ composite,
    compositeOf 1000000 c (simpleRule "now" ["A"] 0 0 None) = Some composite
    ∧ CompositeSignal.contributingAgents composite = [].
Proof.
  intros c.
  destruct (zero_window_rule 1000000 c (simpleRule "now" ["A"] 0 0 None))
    as (composite & Hc & _ & Ha & _).
  - reflexivity.
  - vm_compute. discriminate.
  - intros s Hs. apply list_elem_of_singleton in Hs as ->. vm_compute. reflexivity.
  - intros ty Hty. apply list_elem_of_singleton in Hty as ->.
    exists (simpleSignal "A" "x" 990000 (Some (9 # 10)%Q)).
    split_and!; [left|reflexivity|vm_compute; discriminate].
  - exists composite. exact (conj Hc Ha).
Defined.

Lemma checkRule_buffer now c1 c2 st rule :
  signalBuffer c1 = signalBuffer c2 →
  checkRule now c1 st rule = checkRule now c2 st rule.
Proof.
  intros Hbuf. unfold checkRule, correlateSignals, getRelevantSignals.
  by rewrite Hbuf.
Qed.

(** X8.  A rule added with [addCorrelationRule] is evaluated after the
    rules already registered: the next [processSignal] leaves the same
    buffer, returns what it returned without the rule whenever that was a
    composite and otherwise the new rule's composite, and its events are
    the former ones followed by the new rule's. *)
Theorem added_rule_runs_last
    (now : Z) (c : AgentCoordinator) (rule : CorrelationRule.t)
    (signal : Signal.t) :
  let before := processSignal now c signal in
  let after := processSignal now (addCorrelationRule c rule) signal in
  signalBuffer after.1.1 = signalBuffer before.1.1
  ∧ correlationRules after.1.1 = correlationRules c ++ [rule]
  ∧ after.1.2
    = match before.1.2 with
      | Some composite => Some composite
      | None => compositeOf now before.1.1 rule
      end
  ∧ after.2 = before.2 ++ eventsOf now before.1.1 rule.
Proof.
  intros before after. subst before after. rewrite !processSignal_spec. simpl.
  set (c1 := withBuffer c _). set (c2 := withBuffer (addCorrelationRule c rule) _).
  assert (Hc : ∀ r, compositeOf now c2 r = compositeOf now c1 r)
    by (intros r; unfold compositeOf; by rewrite (checkRule_buffer now c2 c1)).
  assert (He : ∀ r, eventsOf now c2 r = eventsOf now c1 r)
    by (intros r; unfold eventsOf; by rewrite (checkRule_buffer now c2 c1)).
  assert (Hco : ∀ l : list CorrelationRule.t,
            omap (compositeOf now c2) l = omap (compositeOf now c1) l).
  { induction l as [|r l IH]; [done|]. cbn [omap list_omap]. by rewrite Hc, IH. }
  assert (Heo : ∀ l : list CorrelationRule.t,
            l ≫= eventsOf now c2 = l ≫= eventsOf now c1).
  { induction l as [|r l IH]; [done|]. cbn [mbind list_bind]. by rewrite He, IH. }
  split_and!; try done.
  - rewrite Hco, omap_app. cbn [omap list_omap].
    destruct (omap (compositeOf now c1) (correlationRules c)); [|done].
    simpl. by destruct (compositeOf now c1 rule).
  - rewrite Heo, bind_app. cbn [mbind list_bind]. by rewrite app_nil_r.
Qed.

Lemma pushBounded_within (n : Z) limit buffer s :
  limit ≤ n → Z.of_nat (length buffer) ≤ n →
  Z.of_nat (length (pushBounded limit buffer s)) ≤ n.
Proof.
  intros Hlimit Hlen. unfold pushBounded. rewrite length_app. simpl.
  destruct (Z.ltb_spec limit (Z.of_nat (length buffer + 1)));
    [|rewrite length_app; simpl; lia].
  destruct buffer as [|b buffer]; simpl; [lia|].
  rewrite length_app. simpl in *. lia.
Qed.

Lemma pushAll_within (n : Z) limit sigs buffer :
  limit ≤ n → Z.of_nat (length buffer) ≤ n →
  Z.of_nat (length (foldl (pushBounded limit) buffer sigs)) ≤ n.
Proof.
  intros Hlimit. revert buffer.
  induction sigs as [|s sigs IH]; intros buffer Hlen; simpl; [done|].
  apply IH. by apply pushBounded_within.
Qed.

(** X9.  A coordinator whose buffer size is at most 1 never holds more than
    one signal, so a rule that requires two different types never produces
    a composite, whatever is registered. *)
Theorem single_slot_buffer
    (c : AgentCoordinator) (inputs : list (Fresh * PartialSignal.t))
    (rule : CorrelationRule.t) (A B : string) (now : Z) :
  bufferSize c ≤ 1 →
  Z.of_nat (length (signalBuffer c)) ≤ 1 →
  A ≠ B →
  A ∈ CorrelationRule.requiredSignals rule →
  B ∈ CorrelationRule.requiredSignals rule →
  (length (signalBuffer (registerAll c inputs)) ≤ 1)%nat
  ∧ compositeOf now (registerAll c inputs) rule = None.
Proof.
  intros Hsize Hlen Hne HA HB.
  assert (Hone : Z.of_nat (length (signalBuffer (registerAll c inputs))) ≤ 1).
  { rewrite (proj1 (registerAll_buffer _ _)). by apply pushAll_within. }
  split; [lia|]. apply compositeOf_unmatched. apply not_true_is_false.
  intros Hmatch. pose proof (proj1 (correlateSignals_true _ _ _ _) Hmatch) as Hcov.
  destruct (Hcov A HA) as (sA & HsA & HtA & _).
  destruct (Hcov B HB) as (sB & HsB & HtB & _).
  destruct (signalBuffer (registerAll c inputs)) as [|x [|y l]];
    [by apply elem_of_nil in HsA| |simpl in Hone; lia].
  apply list_elem_of_singleton in HsA, HsB. congruence.
Qed.

Lemma single_slot_buffer_witness :
  let f := mkFresh "coord_1" "sig_coord_1" 1000 in
  let inputs := [(f, simplePartial "A" "x" 1); (f, simplePartial "B" "y" 1)] in
  compositeOf 1000 (registerAll (newAgentCoordinator (Some 1)) inputs)
    (simpleRule "both" ["A"; "B"] 30000 0 None) = None.
Proof.
  intros f inputs.
  apply (single_slot_buffer (newAgentCoordinator (Some 1)) inputs
           (simpleRule "both" ["A"; "B"] 30000 0 None) "A" "B" 1000).
  - vm_compute. discriminate.
  - vm_compute. discriminate.
  - discriminate.
  - left.
  - right. left.
Defined.

(** ** More on alerts *)

Lemma alertsFor_cons i alert alerts :
  alertsFor i (alert :: alerts)
  = if bool_decide (TriggeredAlert.ruleId alert = i)
    then alert :: alertsFor i alerts else alertsFor i alerts.
Proof.
  unfold alertsFor. rewrite filter_cons.
  destruct (decide _); [by rewrite bool_decide_eq_true_2|
                        by rewrite bool_decide_eq_false_2].
Qed.

(** What the loop of [checkAlerts] appends and writes, for any rule list. *)
Lemma fold_checkAlertRule_sound now signal rules triggered last :
  ∃ new,
    fold_left (checkAlertRule now signal) rules (triggered, last)
    = (triggered ++ new,
       (fold_left (checkAlertRule now signal) rules (triggered, last)).2)
    ∧ (∀ alert, alert ∈ new →
         ∃ rule, rule ∈ rules ∧ AlertRule.enabled rule = true
                 ∧ AlertRule.condition rule signal = true
                 ∧ alert = triggerAlert now rule signal)
    ∧ (length new
       ≤ length (filter (λ rule, AlertRule.enabled rule = true) rules))%nat
    ∧ ∀ i, (fold_left (checkAlertRule now signal) rules (triggered, last)).2 !! i
           = if bool_decide (alertsFor i new = [] ∨ i = "__proto__")
             then last !! i else Some now.
Proof.
  revert triggered last.
  induction rules as [|r rules IH]; intros triggered last.
  - exists []. cbn [fold_left snd]. rewrite app_nil_r.
    split_and!; [done| |simpl; lia|].
    + intros alert Hin. by apply elem_of_nil in Hin.
    + intros i. by rewrite bool_decide_eq_true_2 by by left.
  - cbn [fold_left]. rewrite checkAlertRule_due.
    destruct (due now last signal r) eqn:Hdue.
    + destruct (IH (triggered ++ [triggerAlert now r signal])
                  (setProperty (AlertRule.id r) now last))
        as (new & Heq & Hsound & Hlen & Hlast).
      exists (triggerAlert now r signal :: new).
      unfold due in Hdue. apply andb_true_iff in Hdue as [Hdue Hcond].
      apply andb_true_iff in Hdue as [Hen _].
      split_and!.
      * rewrite Heq at 1. by rewrite <-app_assoc.
      * intros alert [->|Hin]%elem_of_cons.
        -- exists r. split_and!; [left|done..].
        -- destruct (Hsound alert Hin) as (rule & ? & ?). exists rule.
           split; [by right|done].
      * rewrite filter_cons_True by done. simpl. lia.
      * intros i. rewrite Hlast, alertsFor_cons. simpl.
        destruct (bool_decide_reflect (AlertRule.id r = i)) as [->|Hne].
        -- rewrite setProperty_lookup_eq.
           destruct (decide (i = "__proto__")) as [Hp|Hp].
           ++ rewrite (bool_decide_eq_true_2 (i = "__proto__")) by done.
              rewrite !(bool_decide_eq_true_2 (_ ∨ _)) by by right. done.
           ++ rewrite (bool_decide_eq_false_2 (i = "__proto__")) by done.
              rewrite (bool_decide_eq_false_2 (_ :: _ = [] ∨ _))
                by (intros [?|?]; done).
              by destruct (bool_decide _).
        -- by rewrite setProperty_lookup_ne.
    + destruct (IH triggered last) as (new & Heq & Hsound & Hlen & Hlast).
      exists new. split_and!; [done| | |done].
      * intros alert Hin. destruct (Hsound alert Hin) as (rule & ? & ?).
        exists rule. split; [by right|done].
      * rewrite filter_cons. destruct (decide _); simpl; lia.
Qed.

(** X10.  Whatever the rule list, every alert [addSignal] returns comes
    from a registered rule that is enabled and whose condition holds on the
    signal, and carries that signal and the current time; there are at most
    as many alerts as active rules; the cooldown entry of an id other than
    [__proto__] becomes [now] when an alert of that id is returned and is
    untouched otherwise, and the table is never written under [__proto__];
    the rules themselves are not changed. *)
Theorem alerts_are_sound (now : Z) (a : SignalAnalytics) (signal : Signal.t) :
  let out := addSignal now a signal in
  (∀ alert, alert ∈ out.1 →
     ∃ rule, rule ∈ alertRules a ∧ AlertRule.enabled rule = true
             ∧ AlertRule.condition rule signal = true
             ∧ alert = triggerAlert now rule signal)
  ∧ (length out.1 ≤ length (getActiveAlerts a))%nat
  ∧ (∀ i, lastAlerts out.2 !! i
          = if bool_decide (alertsFor i out.1 = [] ∨ i = "__proto__")
            then lastAlerts a !! i else Some now)
  ∧ alertRules out.2 = alertRules a.
Proof.
  destruct (fold_checkAlertRule_sound now signal (alertRules a) [] (lastAlerts a))
    as (new & Heq & Hsound & Hlen & Hlast).
  unfold addSignal, checkAlerts, getActiveAlerts. simpl.
  destruct (fold_left _ _ _) as [triggered last'] eqn:Hfold.
  simpl in *. injection Heq as ->. split_and!; done.
Qed.

Lemma setEnabled_ids i b rules :
  AlertRule.id <$> setEnabled i b rules = AlertRule.id <$> rules.
Proof.
  induction rules as [|r rules IH]; [done|]. cbn [setEnabled].
  destruct (bool_decide (AlertRule.id r = i)); rewrite !fmap_cons;
    [done|by rewrite IH].
Qed.

Lemma setEnabled_unknown i b rules :
  (∀ r, r ∈ rules → AlertRule.id r ≠ i) → setEnabled i b rules = rules.
Proof.
  induction rules as [|r rules IH]; intros Hall; [done|]. simpl.
  rewrite bool_decide_eq_false_2 by (apply Hall; left).
  rewrite IH; [done|]. intros ??. apply Hall. by right.
Qed.

Lemma setEnabled_first i b pre r post :
  (∀ r', r' ∈ pre → AlertRule.id r' ≠ i) → AlertRule.id r = i →
  setEnabled i b (pre ++ r :: post) = pre ++ withEnabled r b :: post.
Proof.
  intros Hpre Hr. induction pre as [|x pre IH]; simpl.
  - by rewrite bool_decide_eq_true_2.
  - rewrite bool_decide_eq_false_2 by (apply Hpre; left).
    rewrite IH; [done|]. intros ??. apply Hpre. by right.
Qed.

Lemma silent_alerts now last signal i rules :
  NoDup (AlertRule.id <$> rules) →
  (λ r, triggerAlert now r signal)
    <$> filter (λ r, due now last signal r = true) (setEnabled i false rules)
  = filter (λ alert, TriggeredAlert.ruleId alert ≠ i)
      ((λ r, triggerAlert now r signal)
         <$> filter (λ r, due now last signal r = true) rules).
Proof.
  induction rules as [|r rules IH]; intros Hnd; [done|].
  rewrite fmap_cons in Hnd. apply NoDup_cons in Hnd as [Hr Hnd].
  simpl. destruct (bool_decide_reflect (AlertRule.id r = i)) as [Hi|Hi].
  - assert (Hrest : ∀ r', r' ∈ rules → AlertRule.id r' ≠ i).
    { intros r' Hin Heq. apply Hr. rewrite Hi, <-Heq.
      by apply list_elem_of_fmap_2. }
    assert (Hkeep : filter (λ alert, TriggeredAlert.ruleId alert ≠ i)
                      ((λ r, triggerAlert now r signal)
                         <$> filter (λ r, due now last signal r = true) rules)
                    = (λ r, triggerAlert now r signal)
                        <$> filter (λ r, due now last signal r = true) rules).
    { clear IH Hnd Hr. induction rules as [|r' rules IH]; [done|].
      rewrite filter_cons. destruct (decide _).
      - rewrite fmap_cons, filter_cons_True by (apply Hrest; left).
        rewrite IH; [done|]. intros ??. apply Hrest. by right.
      - apply IH. intros ??. apply Hrest. by right. }
    rewrite filter_cons_False by (unfold due; simpl; congruence).
    rewrite filter_cons. destruct (decide _).
    + rewrite fmap_cons, filter_cons_False by (simpl; tauto). by rewrite Hkeep.
    + by rewrite Hkeep.
  - rewrite !filter_cons. destruct (decide _).
    + rewrite !fmap_cons, filter_cons_True by done. by rewrite IH.
    + by apply IH.
Qed.

(** X11.  With pairwise distinct rule ids, [disableAlert] silences exactly
    the rule it names: the next [addSignal] returns the alerts it would
    have returned, less those of that id.  Ids and their order, the
    cooldown table and the history are untouched, and [getActiveAlerts]
    loses exactly the rule of that id. *)
Theorem disabled_rule_is_silent
    (a : SignalAnalytics) (ruleId : string) (now : Z) (signal : Signal.t) :
  NoDup (AlertRule.id <$> alertRules a) →
  (addSignal now (disableAlert a ruleId) signal).1
  = filter (λ alert, TriggeredAlert.ruleId alert ≠ ruleId)
      (addSignal now a signal).1
  ∧ AlertRule.id <$> alertRules (disableAlert a ruleId)
    = AlertRule.id <$> alertRules a
  ∧ lastAlerts (disableAlert a ruleId) = lastAlerts a
  ∧ signals (disableAlert a ruleId) = signals a
  ∧ AlertRule.id <$> getActiveAlerts (disableAlert a ruleId)
    = filter (λ i, i ≠ ruleId) (AlertRule.id <$> getActiveAlerts a).
Proof.
  intros Hnd. split_and!; try done.
  - rewrite !addSignal_alerts; [|done|simpl; by rewrite setEnabled_ids].
    by apply silent_alerts.
  - apply setEnabled_ids.
  - unfold getActiveAlerts. simpl. revert Hnd.
    induction (alertRules a) as [|r rules IH]; intros Hnd; [done|].
    rewrite fmap_cons in Hnd. apply NoDup_cons in Hnd as [Hr Hnd].
    simpl. destruct (bool_decide_reflect (AlertRule.id r = ruleId)) as [Hi|Hi].
    + assert (Hrest : ∀ r', r' ∈ rules → AlertRule.id r' ≠ ruleId).
      { intros r' Hin Heq. apply Hr. rewrite Hi, <-Heq.
        by apply list_elem_of_fmap_2. }
      rewrite filter_cons_False by (simpl; congruence).
      assert (Hkeep : ∀ l : list AlertRule.t,
                (∀ r', r' ∈ l → AlertRule.id r' ≠ ruleId) →
                filter (λ i, i ≠ ruleId) (AlertRule.id <$> l) = AlertRule.id <$> l).
      { induction l as [|x l IHl]; intros Hl; [done|].
        rewrite fmap_cons, filter_cons_True by (apply Hl; left).
        rewrite IHl; [done|]. intros ??. apply Hl. by right. }
      rewrite (filter_cons (λ rule, AlertRule.enabled rule = true)).
      destruct (decide _).
      * rewrite fmap_cons, filter_cons_False by tauto.
        rewrite Hkeep; [done|]. intros r' [_ ?]%list_elem_of_filter. by apply Hrest.
      * rewrite Hkeep; [done|]. intros r' [_ ?]%list_elem_of_filter. by apply Hrest.
    + rewrite !(filter_cons (λ rule, AlertRule.enabled rule = true)).
      destruct (decide _).
      * rewrite !fmap_cons, filter_cons_True by done. by rewrite IH.
      * by apply IH.
Qed.

Lemma disabled_rule_is_silent_witness :
  let rule := simpleAlertRule "noisy" 0 true in
  let a := addAlertRule newSignalAnalytics rule in
  let s := simpleSignal "TEST" "test" 1000000 None in
  (addSignal 1000000 a s).1 = [triggerAlert 1000000 rule s]
  ∧ (addSignal 1000000 (disableAlert a "noisy") s).1 = [].
Proof.
  intros rule a s. split; [vm_compute; reflexivity|].
  destruct (disabled_rule_is_silent a "noisy" 1000000 s) as (-> & _).
  - apply (bool_decide_unpack _). vm_compute. exact I.
  - vm_compute. reflexivity.
Defined.

Lemma withEnabled_same rule : withEnabled rule (AlertRule.enabled rule) = rule.
Proof. by destruct rule. Qed.

(** X12.  With pairwise distinct rule ids, [disableAlert] and [enableAlert]
    set the enabled flag of the rule that carries the given id and change
    nothing else: the other rules and the order of the list stay as they
    are.  Disabling and then enabling a rule that was enabled, or enabling
    and then disabling one that was disabled, restores the instance. *)
Theorem enable_disable_one_rule
    (a : SignalAnalytics) (ruleId : string)
    (pre post : list AlertRule.t) (rule : AlertRule.t) :
  NoDup (AlertRule.id <$> alertRules a) →
  alertRules a = pre ++ rule :: post →
  AlertRule.id rule = ruleId →
  alertRules (disableAlert a ruleId) = pre ++ withEnabled rule false :: post
  ∧ alertRules (enableAlert a ruleId) = pre ++ withEnabled rule true :: post
  ∧ (AlertRule.enabled rule = true →
     enableAlert (disableAlert a ruleId) ruleId = a)
  ∧ (AlertRule.enabled rule = false →
     disableAlert (enableAlert a ruleId) ruleId = a).
Proof.
  intros Hnd Hrules Hid.
  assert (Hpre : ∀ r, r ∈ pre → AlertRule.id r ≠ ruleId).
  { rewrite Hrules, fmap_app, fmap_cons in Hnd.
    apply NoDup_app in Hnd as (_ & Hdisjoint & _).
    intros r Hr Heq. apply (Hdisjoint (AlertRule.id r)).
    - by apply list_elem_of_fmap_2.
    - rewrite Heq, <-Hid. left. }
  assert (Hset : ∀ b, setEnabled ruleId b (alertRules a)
                      = pre ++ withEnabled rule b :: post)
    by (intros b; rewrite Hrules; by apply setEnabled_first).
  assert (Hback : ∀ b b', setEnabled ruleId b' (pre ++ withEnabled rule b :: post)
                          = pre ++ withEnabled rule b' :: post)
    by (intros b b'; by rewrite setEnabled_first).
  split_and!.
  - apply Hset.
  - apply Hset.
  - intros Hen. unfold enableAlert, disableAlert. simpl.
    rewrite Hset, Hback, <-Hen, withEnabled_same, <-Hrules. by destruct a.
  - intros Hen. unfold enableAlert, disableAlert. simpl.
    rewrite Hset, Hback, <-Hen, withEnabled_same, <-Hrules. by destruct a.
Qed.

Lemma enable_disable_one_rule_witness :
  let first := simpleAlertRule "first" 0 true in
  let second := simpleAlertRule "second" 5000 true in
  let a := mkAnalytics [] [first; second] ∅ 10000 in
  AlertRule.enabled <$> alertRules (disableAlert a "second") = [true; false]
  ∧ enableAlert (disableAlert a "second") "second" = a.
Proof.
  intros first second a.
  destruct (enable_disable_one_rule a "second" [first] [] second)
    as (Hd & _ & Hround & _).
  - apply (bool_decide_unpack _). vm_compute. exact I.
  - reflexivity.
  - reflexivity.
  - split; [by rewrite Hd|]. by apply Hround.
Defined.

(** X13.  Naming an id that no rule carries is not an error: [enableAlert]
    and [disableAlert] leave the instance as it is, and [removeAlertRule]
    leaves the rules as they are. *)
Theorem unknown_rule_id_is_ignored (a : SignalAnalytics) (ruleId : string) :
  (∀ r, r ∈ alertRules a → AlertRule.id r ≠ ruleId) →
  enableAlert a ruleId = a
  ∧ disableAlert a ruleId = a
  ∧ alertRules (removeAlertRule a ruleId) = alertRules a
  ∧ signals (removeAlertRule a ruleId) = signals a.
Proof.
  intros Hall. unfold enableAlert, disableAlert.
  rewrite !setEnabled_unknown by done. split_and!; try by destruct a.
  simpl. induction (alertRules a) as [|r rules IH]; [done|].
  rewrite filter_cons_True by (apply Hall; left).
  rewrite IH; [done|]. intros ??. apply Hall. by right.
Qed.

Lemma unknown_rule_id_is_ignored_witness :
  disableAlert newSignalAnalytics "no-such-rule" = newSignalAnalytics.
Proof.
  apply (unknown_rule_id_is_ignored newSignalAnalytics "no-such-rule").
  intros r Hr.
  repeat (apply elem_of_cons in Hr as [->|Hr]; [discriminate|]).
  by apply elem_of_nil in Hr.
Defined.

(** X14.  An enabled rule with an id no other rule shares and a cooldown
    of 0 or less fires on every signal its condition accepts, as long as
    the clock is not behind the rule's recorded firing (0 when none is
    recorded).  The call records [now] for the rule, unless its id is
    [__proto__], for which nothing is recorded; either way the
    preconditions hold again afterwards, so the same is true of the next
    signal. *)
Theorem zero_cooldown_always_fires
    (a : SignalAnalytics) (rule : AlertRule.t) (now : Z) (signal : Signal.t) :
  NoDup (AlertRule.id <$> alertRules a) →
  rule ∈ alertRules a →
  AlertRule.enabled rule = true →
  AlertRule.condition rule signal = true →
  AlertRule.cooldown rule ≤ 0 →
  default 0 (lastAlerts a !! AlertRule.id rule) ≤ now →
  alertsFor (AlertRule.id rule) (addSignal now a signal).1
  = [triggerAlert now rule signal]
  ∧ (AlertRule.id rule ≠ "__proto__" →
     lastAlerts (addSignal now a signal).2 !! AlertRule.id rule = Some now)
  ∧ (AlertRule.id rule = "__proto__" →
     lastAlerts (addSignal now a signal).2 !! AlertRule.id rule
     = lastAlerts a !! AlertRule.id rule)
  ∧ default 0 (lastAlerts (addSignal now a signal).2 !! AlertRule.id rule) ≤ now
  ∧ NoDup (AlertRule.id <$> alertRules (addSignal now a signal).2)
  ∧ rule ∈ alertRules (addSignal now a signal).2.
Proof.
  intros Hnd Hin Hen Hcond Hcool Hclock.
  destruct (addSignal_rule now a signal rule Hnd Hin) as (Ha & Hl & Hr).
  assert (Hdue : due now (lastAlerts a) signal rule = true).
  { unfold due, coolingDown, getProperty. rewrite Hen, Hcond. simpl.
    rewrite andb_true_r. apply negb_true_iff.
    destruct (lastAlerts a !! AlertRule.id rule) as [t|]; simpl in Hclock.
    - rewrite orZ_0_r. apply Z.ltb_ge. lia.
    - destruct (inherited _); [done|]. apply Z.ltb_ge. lia. }
  rewrite Hdue in Ha, Hl. simpl in Hl. rewrite Hr, Hl.
  split_and!; try done.
  - intros Hp. by rewrite bool_decide_eq_false_2.
  - intros Hp. by rewrite bool_decide_eq_true_2.
  - case_bool_decide; simpl; [done|lia].
Qed.

Lemma zero_cooldown_always_fires_witness :
  let rule := simpleAlertRule "every-time" 0 true in
  let s := simpleSignal "TEST" "test" 1000000 None in
  let a := (addSignal 1000000 (addAlertRule newSignalAnalytics rule) s).2 in
  lastAlerts a !! "every-time" = Some 1000000
  ∧ alertsFor "every-time" (addSignal 1000000 a s).1
    = [triggerAlert 1000000 rule s].
Proof.
  intros rule s a. split; [vm_compute; reflexivity|].
  apply (zero_cooldown_always_fires a rule 1000000 s).
  - apply (bool_decide_unpack _). vm_compute. exact I.
  - do 4 right. left.
  - reflexivity.
  - reflexivity.
  - vm_compute. discriminate.
  - vm_compute. discriminate.
Defined.

(** X15.  [reset] empties the history and the cooldown table and keeps the
    rules, their enabled flags and the capacity; afterwards the metrics
    count no signal.  After a reset of an instance whose rule ids are
    pairwise distinct, an enabled rule whose cooldown is not longer than
    the current epoch time fires on the next signal its condition
    accepts, whatever its cooldown entry was before. *)
Theorem reset_clears_history_and_cooldowns
    (a : SignalAnalytics) (now : Z) (timeWindow : option Z) :
  signals (reset a) = []
  ∧ lastAlerts (reset a) = ∅
  ∧ alertRules (reset a) = alertRules a
  ∧ maxSignals (reset a) = maxSignals a
  ∧ SignalMetrics.totalSignals (getMetrics now (reset a) timeWindow) = 0%nat
  ∧ (NoDup (AlertRule.id <$> alertRules a) →
     ∀ rule signal,
       rule ∈ alertRules a →
       AlertRule.enabled rule = true →
       AlertRule.condition rule signal = true →
       AlertRule.cooldown rule ≤ now →
       alertsFor (AlertRule.id rule) (addSignal now (reset a) signal).1
       = [triggerAlert now rule signal]).
Proof.
  split_and!; try done.
  intros Hnd rule signal Hin Hen Hcond Hcool.
  destruct (addSignal_rule now (reset a) signal rule Hnd Hin) as (Ha & _).
  rewrite Ha. unfold due. rewrite Hen, Hcond, coolingDown_none; done.
Qed.

Lemma reset_clears_history_and_cooldowns_witness :
  let rule := simpleAlertRule "slow" 600000 true in
  let s := simpleSignal "TEST" "test" 1000000 None in
  let a := (addSignal 1000000 (addAlertRule newSignalAnalytics rule) s).2 in
  alertsFor "slow" (addSignal 1000001 a s).1 = []
  ∧ alertsFor "slow" (addSignal 1000001 (reset a) s).1
    = [triggerAlert 1000001 rule s].
Proof.
  intros rule s a. split; [vm_compute; reflexivity|].
  destruct (reset_clears_history_and_cooldowns a 1000001 None)
    as (_ & _ & _ & _ & _ & H).
  assert (Hnd : NoDup (AlertRule.id <$> alertRules a))
    by (apply (bool_decide_unpack _); vm_compute; exact I).
  apply (H Hnd rule s).
  - do 4 right. left.
  - reflexivity.
  - reflexivity.
  - vm_compute. discriminate.
Defined.

Lemma default_rule_types (signal : Signal.t) (rule : AlertRule.t) :
  rule ∈ setupDefaultAlertRules → AlertRule.condition rule signal = true →
  (AlertRule.id rule = "high_confidence_launch"
   ∧ Signal.type signal = "launch_detected")
  ∨ (AlertRule.id rule = "coordinated_pattern"
     ∧ (Signal.type signal = "coordinated_launch_pattern"
        ∨ Signal.type signal = "suspicious_reactivation"))
  ∨ (AlertRule.id rule = "ghost_wallet_activity"
     ∧ Signal.type signal = "dormant_wallet_activated")
  ∨ (AlertRule.id rule = "rapid_deployment_burst"
     ∧ Signal.type signal = "rapid_deployment").
Proof.
  intros Hin Hcond. unfold setupDefaultAlertRules in Hin.
  repeat (apply elem_of_cons in Hin as [->|Hin]); [..|by apply elem_of_nil in Hin];
    simpl in Hcond.
  - apply andb_true_iff in Hcond as [Hty _]. apply bool_decide_eq_true in Hty. auto.
  - apply orb_true_iff in Hcond as [Hty|Hty]; apply bool_decide_eq_true in Hty; auto.
  - apply andb_true_iff in Hcond as [Hty _]. apply bool_decide_eq_true in Hty. auto 6.
  - apply andb_true_iff in Hcond as [Hty _]. apply bool_decide_eq_true in Hty. auto 6.
Qed.

(** X16.  The four built-in alert rules look for different signal types, so
    as long as the rule list is the built-in one [addSignal] returns at most
    one alert, and an alert it returns names the rule that belongs to the
    type of the signal. *)
Theorem default_rules_exclusive
    (a : SignalAnalytics) (now : Z) (signal : Signal.t) :
  alertRules a = setupDefaultAlertRules →
  (length (addSignal now a signal).1 ≤ 1)%nat
  ∧ ∀ alert, alert ∈ (addSignal now a signal).1 →
      TriggeredAlert.signal alert = signal
      ∧ ((TriggeredAlert.ruleId alert = "high_confidence_launch"
          ∧ Signal.type signal = "launch_detected")
         ∨ (TriggeredAlert.ruleId alert = "coordinated_pattern"
            ∧ (Signal.type signal = "coordinated_launch_pattern"
               ∨ Signal.type signal = "suspicious_reactivation"))
         ∨ (TriggeredAlert.ruleId alert = "ghost_wallet_activity"
            ∧ Signal.type signal = "dormant_wallet_activated")
         ∨ (TriggeredAlert.ruleId alert = "rapid_deployment_burst"
            ∧ Signal.type signal = "rapid_deployment")).
Proof.
  intros Hrules.
  destruct (fold_checkAlertRule_sound now signal (alertRules a) [] (lastAlerts a))
    as (new & Heq & Hsound & _ & _).
  assert (Hall : (addSignal now a signal).1 = new).
  { unfold addSignal, checkAlerts. simpl.
    destruct (fold_left _ _ _) as [triggered last']. simpl in *. congruence. }
  assert (Hkind : ∀ alert, alert ∈ new →
            TriggeredAlert.signal alert = signal
            ∧ ((TriggeredAlert.ruleId alert = "high_confidence_launch"
                ∧ Signal.type signal = "launch_detected")
               ∨ (TriggeredAlert.ruleId alert = "coordinated_pattern"
                  ∧ (Signal.type signal = "coordinated_launch_pattern"
                     ∨ Signal.type signal = "suspicious_reactivation"))
               ∨ (TriggeredAlert.ruleId alert = "ghost_wallet_activity"
                  ∧ Signal.type signal = "dormant_wallet_activated")
               ∨ (TriggeredAlert.ruleId alert = "rapid_deployment_burst"
                  ∧ Signal.type signal = "rapid_deployment"))).
  { intros alert Hin. destruct (Hsound alert Hin) as (rule & Hr & _ & Hcond & ->).
    split; [done|]. rewrite Hrules in Hr. by apply default_rule_types. }
  rewrite Hall. split; [|done].
  assert (Hnd : NoDup (TriggeredAlert.ruleId <$> new)).
  { assert (Hids : NoDup (AlertRule.id <$> alertRules a))
      by (rewrite Hrules; apply (bool_decide_unpack _); vm_compute; exact I).
    pose proof (addSignal_alerts now a signal Hids) as Halerts.
    rewrite Hall in Halerts. rewrite Halerts, <-list_fmap_compose.
    change (TriggeredAlert.ruleId ∘ (λ r, triggerAlert now r signal))
      with AlertRule.id.
    apply (sublist_NoDup _ _ Hids), fmap_sublist, sublist_filter. }
  destruct new as [|x [|y new]]; simpl; [lia..|].
  exfalso.
  destruct (Hkind x) as [_ Hx]; [left|].
  destruct (Hkind y) as [_ Hy]; [right; left|].
  assert (Hsame : TriggeredAlert.ruleId x = TriggeredAlert.ruleId y).
  { destruct Hx as [[Hx ?]|[[Hx ?]|[[Hx ?]|[Hx ?]]]];
      destruct Hy as [[Hy ?]|[[Hy ?]|[[Hy ?]|[Hy ?]]]];
      rewrite Hx, Hy; try done; exfalso; intuition congruence. }
  rewrite !fmap_cons in Hnd. apply NoDup_cons in Hnd as [Hxy _].
  apply Hxy. rewrite Hsame. left.
Qed.

Lemma default_rules_exclusive_witness :
  (length (addSignal 1000000 newSignalAnalytics
             (simpleSignal "launch_detected" "LaunchTracker" 1000000
                (Some (95 # 100)%Q))).1 ≤ 1)%nat.
Proof.
  apply (default_rules_exclusive newSignalAnalytics 1000000). reflexivity.
Defined.



(** ** Reading the history *)

Lemma getRecentSignals_positive a limit :
  0 < limit →
  getRecentSignals a limit = mostRecent (Z.to_nat limit) (signals a).
Proof.
  intros Hpos. unfold getRecentSignals, sliceFrom, mostRecent.
  destruct (Z.ltb_spec (- limit) 0); [|lia]. f_equal. lia.
Qed.

Lemma mostRecent_mostRecent n m l :
  (n ≤ m)%nat → mostRecent n (mostRecent m l) = mostRecent n l.
Proof.
  intros Hnm. unfold mostRecent. rewrite length_drop, drop_drop. f_equal. lia.
Qed.

(** X18.  After a run of [addSignal] on a history within its non-negative
    capacity, [getRecentSignals(k)], for [k] positive and no larger than the
    capacity or the number of signals added, returns the last [k] signals
    added, oldest first; in particular [getRecentSignals(1)] is the signal
    just added.  [getRecentSignals(0)] returns the whole history. *)
Theorem recent_signals_after_add
    (a : SignalAnalytics) (timed : list (Z * Signal.t)) (k : Z) :
  0 ≤ maxSignals a →
  Z.of_nat (length (signals a)) ≤ maxSignals a →
  0 < k →
  k ≤ Z.of_nat (length timed) →
  k ≤ maxSignals a →
  getRecentSignals (addAll a timed) k = mostRecent (Z.to_nat k) (snd <$> timed)
  ∧ Z.of_nat (length (getRecentSignals (addAll a timed) k)) = k
  ∧ getRecentSignals (addAll a timed) 0 = signals (addAll a timed).
Proof.
  intros Hcap Hlen Hk Hkn Hkc.
  assert (Hrecent : getRecentSignals (addAll a timed) k
                    = mostRecent (Z.to_nat k) (snd <$> timed)).
  { rewrite getRecentSignals_positive by done.
    rewrite (proj1 (addAll_buffer _ _)), pushAll_mostRecent by done.
    rewrite mostRecent_mostRecent by lia.
    apply mostRecent_overflow. rewrite length_fmap. lia. }
  split_and!; [done| |].
  - rewrite Hrecent, mostRecent_length, length_fmap. lia.
  - unfold getRecentSignals, sliceFrom. simpl.
    by replace (Z.to_nat _) with 0%nat by lia.
Qed.

Lemma recent_signals_after_add_witness :
  let s := simpleSignal "LAST" "test" 1000000 None in
  getRecentSignals (addSignal 1000000 newSignalAnalytics s).2 1 = [s].
Proof.
  intros s.
  apply (recent_signals_after_add newSignalAnalytics [(1000000, s)] 1);
    vm_compute; congruence.
Defined.

Lemma setMaxHistorySize_positive a size :
  0 < size →
  signals (setMaxHistorySize a size) = mostRecent (Z.to_nat size) (signals a).
Proof.
  intros Hpos. unfold setMaxHistorySize, sliceFrom, mostRecent. simpl.
  destruct (Z.ltb_spec size (Z.of_nat (length (signals a)))).
  - destruct (Z.ltb_spec (- size) 0); [|lia]. f_equal. lia.
  - by replace (length (signals a) - Z.to_nat size)%nat with 0%nat by lia.
Qed.

(** X19.  [setMaxHistorySize(size)] with a positive [size] cuts the history
    to its [size] most recent signals and keeps rules and cooldowns.  From
    then on, whatever is added, the history is the [size] most recent
    signals of the old history followed by the added ones, it never holds
    more than [size] signals, and no metrics snapshot counts more. *)
Theorem shrunk_history_stays_bounded
    (a : SignalAnalytics) (size : Z) (timed : list (Z * Signal.t))
    (now : Z) (timeWindow : option Z) :
  0 < size →
  let a' := addAll (setMaxHistorySize a size) timed in
  signals (setMaxHistorySize a size) = mostRecent (Z.to_nat size) (signals a)
  ∧ alertRules (setMaxHistorySize a size) = alertRules a
  ∧ lastAlerts (setMaxHistorySize a size) = lastAlerts a
  ∧ signals a' = mostRecent (Z.to_nat size) (signals a ++ (snd <$> timed))
  ∧ Z.of_nat (length (signals a')) ≤ size
  ∧ Z.of_nat (SignalMetrics.totalSignals (getMetrics now a' timeWindow)) ≤ size.
Proof.
  intros Hpos a'.
  pose proof (setMaxHistorySize_positive a size Hpos) as Hcut.
  assert (Hsig : signals a'
                 = mostRecent (Z.to_nat size) (signals a ++ (snd <$> timed))).
  { subst a'. rewrite (proj1 (addAll_buffer _ _)).
    change (maxSignals (setMaxHistorySize a size)) with size.
    rewrite pushAll_mostRecent, Hcut, mostRecent_app; [done|lia|].
    rewrite Hcut, mostRecent_length. lia. }
  assert (Hlen : Z.of_nat (length (signals a')) ≤ size)
    by (rewrite Hsig, mostRecent_length; lia).
  split_and!; try done.
  simpl. unfold relevantForMetrics.
  pose proof (length_filter
                (λ signal, now - Signal.timestamp signal ≤ metricsWindow timeWindow)
                (signals a')). lia.
Qed.

Lemma shrunk_history_stays_bounded_witness :
  let timed := [(1000, simpleSignal "A" "x" 1000 None);
                (1001, simpleSignal "B" "y" 1001 None);
                (1002, simpleSignal "C" "z" 1002 None)] in
  Signal.type <$> signals (addAll (setMaxHistorySize newSignalAnalytics 2) timed)
  = ["B"; "C"].
Proof.
  intros timed.
  destruct (shrunk_history_stays_bounded newSignalAnalytics 2 timed 1002 None)
    as (_ & _ & _ & -> & _); [vm_compute; reflexivity|].
  reflexivity.
Defined.

(** ** Per-agent and per-pattern aggregates *)

Lemma Qsum_app l k : (Qsum (l ++ k) == Qsum l + Qsum k)%Q.
Proof.
  induction l as [|x l IH]; simpl; [by rewrite Qplus_0_l|].
  by rewrite <-Qplus_assoc, IH.
Qed.

Lemma natQ_S n : (natQ (S n) - 1 == natQ n)%Q.
Proof.
  unfold natQ. rewrite Nat2Z.inj_succ, <-Z.add_1_r, inject_Z_plus. ring.
Qed.

Lemma natQ_S_nonzero n : ¬ (natQ (S n) == 0)%Q.
Proof. unfold natQ, Qeq. simpl. lia. Qed.

Lemma fold_left_snoc {A B} (f : A → B → A) l x a :
  fold_left f (l ++ [x]) a = f (fold_left f l a) x.
Proof. by rewrite fold_left_app. Qed.

Lemma trackAgent_lookup_ne s k table :
  agentOf s ≠ k → trackAgent s table !! k = table !! k.
Proof.
  intros Hne. unfold trackAgent.
  destruct (getProperty table (agentOf s)); [|done|];
    by rewrite lookup_insert_ne.
Qed.

Lemma trackAgent_lookup_plain s table :
  inherited (agentOf s) = false →
  trackAgent s table !! agentOf s
  = Some (seenAgent s (default (AgentMetric.mk 0 0%Q) (table !! agentOf s))).
Proof.
  intros Hk. unfold trackAgent, getProperty. rewrite Hk.
  destruct (table !! agentOf s); by rewrite lookup_insert_eq.
Qed.

Lemma trackAgent_lookup_member s table :
  inherited (agentOf s) = true → table !! agentOf s = None →
  trackAgent s table = table.
Proof. intros Hk Hnone. unfold trackAgent, getProperty. by rewrite Hnone, Hk. Qed.

(** The table of agent metrics holds no entry under the name of an
    inherited member. *)
Lemma fold_metricsStep_agent_member k l :
  inherited k = true →
  accAgentMetrics (fold_left metricsStep l emptyAcc) !! k = None.
Proof.
  intros Hk. induction l as [|s l IH] using rev_ind; [done|].
  rewrite fold_left_snoc.
  change (accAgentMetrics (metricsStep ?acc s))
    with (trackAgent s (accAgentMetrics acc)).
  destruct (decide (agentOf s = k)) as [Heq|Hne].
  - subst k. by rewrite trackAgent_lookup_member.
  - by rewrite trackAgent_lookup_ne.
Qed.

(** The entry of agent [k] after the loop of [getMetrics] has run over
    [l]; an agent without entry is read as count 0, average 0. *)
Lemma fold_metricsStep_agent k l :
  inherited k = false →
  let m := accAgentMetrics (fold_left metricsStep l emptyAcc) in
  let e := default (AgentMetric.mk 0 0%Q) (m !! k) in
  (m !! k = None ↔ ofAgent k l = [])
  ∧ AgentMetric.count e = length (ofAgent k l)
  ∧ (Forall (λ s, is_Some (Signal.confidence s)) (ofAgent k l) →
     (AgentMetric.averageConfidence e * natQ (AgentMetric.count e)
      == Qsum (confidences (ofAgent k l)))%Q).
Proof.
  intros Hplain. induction l as [|s l IH] using rev_ind.
  - simpl. rewrite lookup_empty. simpl. split_and!; [done..|].
    intros _. unfold natQ. simpl. ring.
  - rewrite fold_left_snoc.
    change (accAgentMetrics (metricsStep ?acc s))
      with (trackAgent s (accAgentMetrics acc)).
    set (acc := fold_left metricsStep l emptyAcc) in *.
    cbn zeta in *. unfold ofAgent in *. rewrite filter_app.
    destruct IH as (Hnone & Hcount & Havg).
    destruct (decide (agentOf s = k)) as [Hk|Hk].
    + rewrite filter_cons_True, filter_nil by done. subst k.
      rewrite trackAgent_lookup_plain by done.
      set (e := default (AgentMetric.mk 0 0%Q) (accAgentMetrics acc !! agentOf s)) in *.
      unfold seenAgent. split_and!.
      * split; [done|]. intros Hnil. by apply app_eq_nil in Hnil as [_ ?].
      * destruct (Signal.confidence s); simpl; rewrite length_app, Hcount;
          simpl; lia.
      * intros Hall. apply Forall_app in Hall as [Hold Hnew].
        apply Forall_singleton in Hnew as [c Hc]. rewrite Hc. simpl.
        unfold confidences in *. rewrite omap_app, Qsum_app. simpl.
        rewrite Hc. simpl. rewrite <-(Havg Hold), natQ_S, Qplus_0_r.
        field. apply natQ_S_nonzero.
    + rewrite filter_cons_False, filter_nil, app_nil_r by done.
      rewrite trackAgent_lookup_ne by done. done.
Qed.

(** X20.  In a metrics snapshot an agent ([signal.agent || signal.source])
    whose name is not that of a member of [Object.prototype] has an
    [agentMetrics] entry exactly when the window holds a signal of it; the
    entry's count is the number of those signals, the same number as in
    [signalsByAgent]; and when all of them carry a confidence, the entry's
    running average is their mean.  An agent named like such a member
    never has an entry. *)
Theorem agent_metrics_mean
    (now : Z) (a : SignalAnalytics) (timeWindow : option Z) (k : string) :
  let window := relevantForMetrics now a (metricsWindow timeWindow) in
  let m := getMetrics now a timeWindow in
  (inherited k = true → SignalMetrics.agentMetrics m !! k = None)
  ∧ (inherited k = false →
     (SignalMetrics.agentMetrics m !! k = None ↔ ofAgent k window = [])
     ∧ ∀ e, SignalMetrics.agentMetrics m !! k = Some e →
         AgentMetric.count e = length (ofAgent k window)
         ∧ SignalMetrics.signalsByAgent m !! k
           = Some (Tally.number (AgentMetric.count e))
         ∧ (Forall (λ s, is_Some (Signal.confidence s)) (ofAgent k window) →
            (AgentMetric.averageConfidence e
             == Qsum (confidences (ofAgent k window))
                / natQ (length (ofAgent k window)))%Q)).
Proof.
  intros window m. subst m. unfold getMetrics. fold window. simpl.
  split; [by apply fold_metricsStep_agent_member|]. intros Hplain.
  destruct (fold_metricsStep_agent k window Hplain) as (Hnone & Hcount & Havg).
  cbn zeta in *. split; [done|]. intros e He. rewrite He in *. simpl in *.
  assert (Hpos : ofAgent k window ≠ []) by (intros Hnil; apply Hnone in Hnil; done).
  split_and!.
  - done.
  - rewrite (fold_metricsStep_count accByAgent agentOf (λ _ _, eq_refl)
               window emptyAcc k 0) by done.
    simpl. fold (ofAgent k window). rewrite <-Hcount.
    destruct (AgentMetric.count e) eqn:Hn; [|done].
    destruct (ofAgent k window); [done|]. simpl in Hcount. lia.
  - intros Hall. rewrite <-(Havg Hall), <-Hcount.
    destruct (AgentMetric.count e) as [|n] eqn:Hn.
    + destruct (ofAgent k window); [done|]. simpl in Hcount. lia.
    + symmetry. apply Qdiv_mult_l, natQ_S_nonzero.
Qed.

Lemma alookup_upsert {V} k k' (f : option V → V) l :
  alookup k' (upsert k f l)
  = if bool_decide (k = k') then Some (f (alookup k l)) else alookup k' l.
Proof.
  induction l as [|[k0 v] l IH]; simpl.
  - destruct (bool_decide (k = k')); done.
  - destruct (bool_decide_reflect (k0 = k)) as [->|Hk0]; simpl.
    + destruct (bool_decide (k = k')); done.
    + rewrite IH. destruct (bool_decide_reflect (k = k')) as [->|Hkk'].
      * by rewrite bool_decide_eq_false_2.
      * done.
Qed.

Lemma upsert_keys {V} k (f : option V → V) l x :
  x ∈ (upsert k f l).*1 ↔ x = k ∨ x ∈ l.*1.
Proof.
  induction l as [|[k0 v] l IH]; simpl.
  - rewrite list_elem_of_singleton, elem_of_nil. tauto.
  - destruct (bool_decide_reflect (k0 = k)) as [->|Hk0]; simpl.
    + rewrite elem_of_cons. tauto.
    + rewrite !elem_of_cons, IH. tauto.
Qed.

Lemma upsert_NoDup {V} k (f : option V → V) l :
  NoDup l.*1 → NoDup (upsert k f l).*1.
Proof.
  induction l as [|[k0 v] l IH]; simpl; intros Hnd.
  - apply NoDup_singleton.
  - apply NoDup_cons in Hnd as [Hk0 Hnd].
    destruct (bool_decide_reflect (k0 = k)) as [->|Hne]; simpl.
    + by apply NoDup_cons.
    + apply NoDup_cons. split; [|by apply IH].
      rewrite upsert_keys. tauto.
Qed.

Lemma alookup_elem {V} k (v : V) l :
  NoDup l.*1 → (k, v) ∈ l ↔ alookup k l = Some v.
Proof.
  induction l as [|[k0 v0] l IH]; simpl; intros Hnd.
  - rewrite elem_of_nil. split; [done|discriminate].
  - apply NoDup_cons in Hnd as [Hk0 Hnd]. rewrite elem_of_cons.
    destruct (bool_decide_reflect (k0 = k)) as [->|Hne].
    + split.
      * intros [[= -> ]|Hin]; [done|]. destruct Hk0.
        apply list_elem_of_fmap. by exists (k, v).
      * intros [= ->]. by left.
    + rewrite <-IH by done. split; [|tauto].
      intros [[= ? ?]|?]; [congruence|done].
Qed.

(** The pattern table after the loop of [getMetrics] has run over [l]: it
    holds one entry per pattern of [l] that is not the name of an inherited
    member, and no other. *)
Lemma fold_metricsStep_patterns l :
  let ps := accPatterns (fold_left metricsStep l emptyAcc) in
  NoDup ps.*1
  ∧ ∀ k, match alookup k ps with
         | None => inherited k = true ∨ ofPattern k l = []
         | Some p =>
             inherited k = false
             ∧ PatternStat.count p = length (ofPattern k l)
             ∧ ofPattern k l ≠ []
             ∧ (PatternStat.totalConfidence p
                == Qsum (confidences (ofPattern k l)))%Q
         end.
Proof.
  induction l as [|s l IH] using rev_ind.
  - simpl. split; [constructor|]. intros k. by right.
  - rewrite fold_left_snoc.
    change (accPatterns (metricsStep ?acc s))
      with (trackPattern s (accPatterns acc)).
    set (acc := fold_left metricsStep l emptyAcc) in *. cbn zeta in *.
    destruct IH as [Hnd Hall].
    destruct (inherited (patternOf s)) eqn:Hmember.
    + assert (Hskip : trackPattern s (accPatterns acc) = accPatterns acc).
      { unfold trackPattern. rewrite Hmember. pose proof (Hall (patternOf s)) as Hs.
        destruct (alookup (patternOf s) (accPatterns acc)); [|done].
        destruct Hs as [Hs _]. congruence. }
      rewrite Hskip. split; [done|]. intros k. specialize (Hall k).
      unfold ofPattern in *. rewrite filter_app.
      destruct (decide (patternOf s = k)) as [Hk|Hk].
      * subst k. destruct (alookup (patternOf s) (accPatterns acc)); [|by left].
        destruct Hall as [Hs _]. congruence.
      * by rewrite filter_cons_False, filter_nil, app_nil_r by done.
    + assert (Hstep : trackPattern s (accPatterns acc)
                      = upsert (patternOf s) (seenPattern s) (accPatterns acc)).
      { unfold trackPattern. rewrite Hmember. by destruct (alookup _ _). }
      rewrite Hstep. split; [by apply upsert_NoDup|].
      intros k. rewrite alookup_upsert. specialize (Hall k).
      unfold ofPattern in *. rewrite filter_app.
      destruct (bool_decide_reflect (patternOf s = k)) as [Hk|Hk].
      * rewrite filter_cons_True, filter_nil by done. subst k.
        unfold seenPattern, confidences. rewrite omap_app, Qsum_app, length_app.
        simpl.
        split_and!.
        -- done.
        -- destruct (alookup (patternOf s) (accPatterns acc)) as [p|]; simpl.
           ++ destruct Hall as (_ & -> & _). lia.
           ++ destruct Hall as [Hall|Hall]; [congruence|].
              rewrite Hall. simpl. lia.
        -- intros Hnil. by apply app_eq_nil in Hnil as [_ ?].
        -- destruct (alookup (patternOf s) (accPatterns acc)) as [p|]; simpl.
           ++ destruct Hall as (_ & _ & _ & Ht). unfold confidences in Ht.
              rewrite <-Ht. destruct (Signal.confidence s); simpl; ring.
           ++ destruct Hall as [Hall|Hall]; [congruence|].
              rewrite Hall. destruct (Signal.confidence s); simpl; ring.
      * rewrite filter_cons_False, filter_nil, app_nil_r by done. done.
Qed.

Lemma insertByIndex_perm {V} (x : string * V) l : insertByIndex x l ≡ₚ x :: l.
Proof.
  induction l as [|y l IH]; simpl; [done|].
  destruct (_ <? _)%N; [done|]. rewrite IH. apply Permutation_swap.
Qed.

Lemma objectEntries_perm {V} (l : list (string * V)) : objectEntries l ≡ₚ l.
Proof.
  unfold objectEntries.
  assert (Hsort : ∀ k : list (string * V), foldr insertByIndex [] k ≡ₚ k).
  { induction k as [|x k IH]; simpl; [done|].
    by rewrite insertByIndex_perm, IH. }
  rewrite Hsort. apply filter_app_complement.
Qed.

Lemma insertByCount_perm x l : insertByCount x l ≡ₚ x :: l.
Proof.
  induction l as [|y l IH]; simpl; [done|].
  destruct (_ <? _)%nat; [|done]. rewrite IH. apply Permutation_swap.
Qed.

Lemma sortByCount_perm l : sortByCount l ≡ₚ l.
Proof.
  induction l as [|x l IH]; simpl; [done|].
  unfold sortByCount in *. simpl. by rewrite insertByCount_perm, IH.
Qed.

Lemma insertByCount_descending x l :
  descending l → descending (insertByCount x l).
Proof.
  induction l as [|y l IH]; simpl; intros Hd.
  - split; [|done]. intros z Hz. by apply elem_of_nil in Hz.
  - destruct Hd as [Hy Hd].
    destruct (Nat.ltb_spec (TopPattern.count x) (TopPattern.count y)).
    + simpl. split; [|by apply IH].
      intros z Hz. rewrite insertByCount_perm in Hz.
      apply elem_of_cons in Hz as [->|Hz]; [lia|by apply Hy].
    + simpl. split_and!; [|done..].
      intros z [->|Hz]%elem_of_cons; [done|].
      specialize (Hy z Hz). lia.
Qed.

Lemma sortByCount_descending l : descending (sortByCount l).
Proof.
  induction l as [|x l IH]; [done|].
  unfold sortByCount in *. simpl. by apply insertByCount_descending.
Qed.

Lemma descending_take n l : descending l → descending (take n l).
Proof.
  revert n. induction l as [|x l IH]; intros [|n]; simpl; try done.
  intros [Hx Hd]. split; [|by apply IH].
  intros y Hy. apply Hx. by apply (elem_of_sublist _ _ _ Hy), sublist_take.
Qed.

(** X21.  [topPatterns] holds at most 10 entries, one per pattern, with
    counts that never increase along the list.  No entry is made for a
    pattern (the [metadata.pattern] tag, or else the type) that is the name
    of a member of [Object.prototype].  An entry's count is the number of
    window signals of its pattern and its confidence is the sum of the
    confidences those signals carry over that count, so a signal without
    confidence weighs as 0.  The first entry is a pattern that no pattern
    of the window, other than names of such members, beats. *)
Theorem top_patterns_ranked
    (now : Z) (a : SignalAnalytics) (timeWindow : option Z) :
  let window := relevantForMetrics now a (metricsWindow timeWindow) in
  let top := SignalMetrics.topPatterns (getMetrics now a timeWindow) in
  (length top ≤ 10)%nat
  ∧ descending top
  ∧ NoDup (TopPattern.pattern <$> top)
  ∧ (∀ e, e ∈ top →
       inherited (TopPattern.pattern e) = false
       ∧ TopPattern.count e = length (ofPattern (TopPattern.pattern e) window)
       ∧ (0 < TopPattern.count e)%nat
       ∧ (TopPattern.confidence e
          == Qsum (confidences (ofPattern (TopPattern.pattern e) window))
             / natQ (TopPattern.count e))%Q)
  ∧ (∀ k, inherited k = false → ofPattern k window ≠ [] →
       ∃ first, head top = Some first
                ∧ (length (ofPattern k window) ≤ TopPattern.count first)%nat).
Proof.
  intros window top. subst top. unfold getMetrics. fold window. simpl.
  destruct (fold_metricsStep_patterns window) as [Hnd Hall]. cbn zeta in *.
  set (ps := accPatterns (fold_left metricsStep window emptyAcc)) in *.
  assert (Hentry : ∀ e, e ∈ sortByCount (toTopPattern <$> objectEntries ps) →
            ∃ p, alookup (TopPattern.pattern e) ps = Some p
                 ∧ e = toTopPattern (TopPattern.pattern e, p)).
  { intros e He. rewrite sortByCount_perm, objectEntries_perm in He.
    apply list_elem_of_fmap in He as ([k p] & -> & Hin).
    exists p. split; [|done]. by apply alookup_elem. }
  split_and!.
  - rewrite length_take. lia.
  - apply descending_take, sortByCount_descending.
  - apply (sublist_NoDup _ (TopPattern.pattern
                              <$> sortByCount (toTopPattern <$> objectEntries ps)));
      [|apply fmap_sublist, sublist_take].
    rewrite sortByCount_perm, objectEntries_perm, <-list_fmap_compose.
    assert (Hext : (TopPattern.pattern ∘ toTopPattern) <$> ps = ps.*1).
    { apply list_fmap_ext. by intros i [k p] _. }
    by rewrite Hext.
  - intros e He.
    assert (Hs : e ∈ sortByCount (toTopPattern <$> objectEntries ps))
      by (apply (elem_of_sublist _ _ _ He), sublist_take).
    clear He. destruct (Hentry e Hs) as (p & Hp & ->). simpl.
    specialize (Hall (TopPattern.pattern (toTopPattern (TopPattern.pattern e, p)))).
    simpl in Hall. rewrite Hp in Hall. destruct Hall as (Hplain & Hc & Hne & Ht).
    assert (Hpos : (0 < PatternStat.count p)%nat).
    { rewrite Hc. destruct (ofPattern _ window); [done|simpl; lia]. }
    split_and!; [done..|].
    destruct (Nat.ltb_spec 0 (PatternStat.count p)); [|lia]. by rewrite Ht.
  - intros k Hplain Hk. specialize (Hall k).
    destruct (alookup k ps) as [p|] eqn:Hp;
      [|destruct Hall; [congruence|done]].
    destruct Hall as (_ & Hc & _ & _).
    assert (Hin : toTopPattern (k, p)
                  ∈ sortByCount (toTopPattern <$> objectEntries ps)).
    { rewrite sortByCount_perm, objectEntries_perm.
      apply list_elem_of_fmap_2. by apply alookup_elem. }
    pose proof (sortByCount_descending (toTopPattern <$> objectEntries ps)) as Hd.
    destruct (sortByCount (toTopPattern <$> objectEntries ps)) as [|x rest];
      [by apply elem_of_nil in Hin|].
    exists x. split; [done|]. rewrite <-Hc. destruct Hd as [Hx _].
    apply elem_of_cons in Hin as [<-|Hin]; [done|]. by apply (Hx _ Hin).
Qed.

(** ** Time range, rates and windows of a snapshot *)

Lemma nondecreasing_filter (P : Signal.t → Prop) `{!∀ s, Decision (P s)} l :
  nondecreasing (Signal.timestamp <$> l) →
  nondecreasing (Signal.timestamp <$> filter P l).
Proof.
  induction l as [|s l IH]; [done|]. simpl. intros [Hs Hl].
  rewrite filter_cons. destruct (decide (P s)); [|by apply IH].
  simpl. split; [|by apply IH].
  intros y Hy. apply Hs. apply list_elem_of_fmap in Hy as (s' & -> & Hin).
  apply list_elem_of_fmap_2. by apply list_elem_of_filter in Hin as [_ ?].
Qed.

Lemma nondecreasing_last l x :
  nondecreasing l → last l = Some x → ∀ y, y ∈ l → y ≤ x.
Proof.
  induction l as [|z l IH]; [done|]. intros [Hz Hl] Hlast y Hy.
  destruct l as [|z' l].
  - injection Hlast as <-. apply list_elem_of_singleton in Hy. lia.
  - assert (Hlast' : last (z' :: l) = Some x) by done.
    apply elem_of_cons in Hy as [->|Hy].
    + apply Hz. by apply last_Some_elem_of.
    + by apply IH.
Qed.

(** X22.  When the window holds a signal, the [timeRange] of a snapshot is
    the pair of the timestamps of the first and of the last signal of the
    window in insertion order.  If the history was stamped in non-decreasing
    order these bound every timestamp of the window; otherwise the range
    need not be ordered. *)
Theorem time_range_follows_insertion
    (now : Z) (a : SignalAnalytics) (timeWindow : option Z) :
  let window := relevantForMetrics now a (metricsWindow timeWindow) in
  let range := SignalMetrics.timeRange (getMetrics now a timeWindow) in
  window ≠ [] →
  (∃ first final,
     head window = Some first ∧ last window = Some final
     ∧ range = (Signal.timestamp first, Signal.timestamp final))
  ∧ (nondecreasing (Signal.timestamp <$> signals a) →
     ∀ s, s ∈ window → range.1 ≤ Signal.timestamp s ≤ range.2)
  ∧ ∃ now' a' timeWindow',
      (SignalMetrics.timeRange (getMetrics now' a' timeWindow')).2
      < (SignalMetrics.timeRange (getMetrics now' a' timeWindow')).1.
Proof.
  intros window range Hne. subst range. unfold getMetrics. fold window. simpl.
  destruct window as [|first rest] eqn:Hw; [done|].
  destruct (last (first :: rest)) as [final|] eqn:Hlast;
    [|by apply last_None in Hlast].
  split_and!.
  - exists first, final. done.
  - intros Hsorted s Hs. simpl.
    pose proof (nondecreasing_filter
                  (λ signal, now - Signal.timestamp signal ≤ metricsWindow timeWindow)
                  (signals a) Hsorted) as Hwin.
    fold (relevantForMetrics now a (metricsWindow timeWindow)) in Hwin.
    fold window in Hwin. rewrite Hw in Hwin. split.
    + apply elem_of_cons in Hs as [->|Hs]; [lia|].
      destruct Hwin as [Hfirst _]. apply Hfirst. by apply list_elem_of_fmap_2.
    + apply (nondecreasing_last _ _ Hwin); [by rewrite fmap_last, Hlast|].
      by apply list_elem_of_fmap_2.
  - exists 1000,
      (mkAnalytics [simpleSignal "A" "x" 900 None; simpleSignal "B" "y" 800 None]
         [] ∅ 10000), None.
    vm_compute. reflexivity.
Qed.

Lemma time_range_follows_insertion_witness :
  let a := mkAnalytics [simpleSignal "A" "x" 800 None;
                        simpleSignal "B" "y" 900 None] [] ∅ 10000 in
  SignalMetrics.timeRange (getMetrics 1000 a None) = (800, 900).
Proof.
  intros a.
  destruct (time_range_follows_insertion 1000 a None)
    as ((first & final & Hf & Hl & ->) & _); [discriminate|].
  injection Hf as <-. injection Hl as <-. reflexivity.
Defined.

Lemma inject_Z_nonzero z : z ≠ 0 → ¬ (inject_Z z == 0)%Q.
Proof. intros Hz. unfold Qeq. simpl. lia. Qed.

(** X23.  In every snapshot the three rates are one quantity in three
    units: [signalsPerHour] is 3600 times and [averageSignalRate] 60 times
    [signalRate], and [signalsPerHour] times the window in hours is
    [totalSignals].  A window of 0 is read as absent and gives the 24-hour
    snapshot.  Widening a non-zero window never lowers [totalSignals], which
    never exceeds the size of the history. *)
Theorem metrics_rates_and_windows
    (now : Z) (a : SignalAnalytics) (w w' : Z) :
  w ≠ 0 → w ≤ w' → w' ≠ 0 →
  let m := getMetrics now a (Some w) in
  (SignalMetrics.signalsPerHour m == SignalMetrics.signalRate m * 3600)%Q
  ∧ (SignalMetrics.averageSignalRate m == SignalMetrics.signalRate m * 60)%Q
  ∧ (SignalMetrics.signalsPerHour m * hoursInWindow w
     == natQ (SignalMetrics.totalSignals m))%Q
  ∧ getMetrics now a (Some 0) = getMetrics now a None
  ∧ getMetrics now a None = getMetrics now a (Some 86400000)
  ∧ (SignalMetrics.totalSignals m
     ≤ SignalMetrics.totalSignals (getMetrics now a (Some w')))%nat
  ∧ (SignalMetrics.totalSignals m ≤ length (signals a))%nat.
Proof.
  intros Hw Hle Hw' m. subst m. unfold getMetrics.
  assert (Hwin : ∀ z, z ≠ 0 → metricsWindow (Some z) = z).
  { intros z Hz. unfold metricsWindow, orZ. simpl.
    by destruct (Z.eqb_spec z 0). }
  rewrite (Hwin w), (Hwin w') by done. simpl.
  pose proof (inject_Z_nonzero w Hw) as Hq.
  split_and!.
  - unfold hoursInWindow. change (inject_Z (1000 * 60 * 60)) with 3600000%Q.
    field. done.
  - reflexivity.
  - unfold hoursInWindow. change (inject_Z (1000 * 60 * 60)) with 3600000%Q.
    field. done.
  - reflexivity.
  - reflexivity.
  - unfold relevantForMetrics.
    rewrite (filter_narrow (λ s, now - Signal.timestamp s ≤ w)
               (λ s, now - Signal.timestamp s ≤ w')) by (intros; lia).
    apply length_filter.
  - apply length_filter.
Qed.

Lemma metrics_rates_and_windows_witness :
  let a := mkAnalytics [simpleSignal "A" "x" 800 None;
                        simpleSignal "B" "y" 990 None] [] ∅ 10000 in
  (SignalMetrics.totalSignals (getMetrics 1000 a (Some 50%Z))
   ≤ SignalMetrics.totalSignals (getMetrics 1000 a (Some 500%Z)))%nat.
Proof.
  intros a.
  destruct (metrics_rates_and_windows 1000 a 50 500)
    as (_ & _ & _ & _ & _ & H & _); try (vm_compute; congruence).
  exact H.
Defined.

(** ** Hourly trends and time series *)












